(** * libE57Format: SourceDestBuffer invariant and CompressedVectorReaderImpl

    A shallow embedding of [SourceDestBuffer::checkInvariant]
    (src/SourceDestBuffer.cpp) and of the member functions of
    [CompressedVectorReaderImpl] (CompressedVectorReaderImpl.cpp), with the
    properties of the compressed-vector reader that the specification
    states about them.

    Conventions.  A [uint64_t], [size_t] or [unsigned] value is a [Z]; where
    the C++ arithmetic can wrap, the wrap-around is written out with
    [wrap64].  A [SourceDestBuffer] is a handle ([std::shared_ptr]) on a
    [SourceDestBufferImpl]: handles are indices in a heap, so that two copies
    of one handle observe the same write cursor.  A member function is a
    computation of the monad [M]: it threads the state (heap, image file,
    reader object), may throw an [ErrorCode] (the state at the throw is
    kept) and, for the loops whose termination depends on the file, runs on
    fuel. *)

From stdpp Require Import base option list strings.
From Stdlib Require Import ZArith Lia.

Local Open Scope Z_scope.

(** ** Errors and results *)

Inductive ErrorCode : Type :=
| E57_ERROR_INTERNAL
| E57_ERROR_BAD_CV_PACKET
| E57_ERROR_BAD_API_ARGUMENT
| E57_ERROR_BUFFERS_NOT_COMPATIBLE
| E57_ERROR_NOT_IMPLEMENTED
| E57_ERROR_READER_NOT_OPEN
| E57_ERROR_IMAGE_FILE_NOT_OPEN
| E57_ERROR_BAD_PATH_NAME
| E57_ERROR_BAD_BUFFER
| ErrorInvarianceViolation
| ErrorOther (code : Z).

Inductive result (A : Type) : Type :=
| Ok (a : A)
| Throw (e : ErrorCode).

Arguments Ok {A} a.
Arguments Throw {A} e.

Definition E57_UINT64_MAX : Z := 2 ^ 64 - 1.

(** Unsigned 64-bit arithmetic wraps. *)
Definition wrap64 (z : Z) : Z := z mod 2 ^ 64.

(** ** SourceDestBuffer *)

(** The enumerators of [MemoryRepresentation]; a C++ enum object can hold a
    value that is none of them, which is what the [default] branch of
    [checkInvariant] is for. *)
Inductive MemoryRepresentation : Type :=
| Int8 | UInt8 | Int16 | UInt16 | Int32 | UInt32 | Int64
| Bool | Real32 | Real64 | UString
| NotAnEnumerator (raw : Z).

Record SourceDestBufferImpl : Type := mkSDB {
  pathName : string;
  memoryRepresentation : MemoryRepresentation;
  base : Z;                 (* address of the user's memory *)
  capacity : Z;
  doConversion : bool;
  doScaling : bool;
  stride : Z;
  nextIndex : Z             (* the write cursor *)
}.

Module SourceDestBuffer.

Section Invariant.

(** [sizeof( ustring )] depends on the standard library in use. *)
Variable sizeof_ustring : Z.

(** [SourceDestBuffer::checkInvariant]: the switch computes [min_stride]
    or throws, then the stride is compared. *)
Definition checkInvariant (sdb : SourceDestBufferImpl) : result unit :=
  let min_stride : result Z :=
    match memoryRepresentation sdb with
    | Int8 => Ok 1
    | UInt8 => Ok 1
    | Int16 => Ok 2
    | UInt16 => Ok 2
    | Int32 => Ok 4
    | UInt32 => Ok 4
    | Int64 => Ok 8
    | Bool => Ok 1
    | Real32 => Ok 4
    | Real64 => Ok 8
    | UString => Ok sizeof_ustring
    | NotAnEnumerator _ => Throw ErrorInvarianceViolation
    end in
  match min_stride with
  | Throw e => Throw e
  | Ok m => if stride sdb <? m then Throw ErrorInvarianceViolation else Ok tt
  end.

(** The size table as the specification words it: 1 for Int8, UInt8 and
    Bool, 2 for the 16-bit integers, 4 for the 32-bit ones and Real32, 8
    for Int64 and Real64, [sizeof(ustring)] for UString; no size for a
    value that is not an enumerator. *)
Definition isByteSized (r : MemoryRepresentation) : bool :=
  match r with Int8 | UInt8 | Bool => true | _ => false end.
Definition isTwoBytes (r : MemoryRepresentation) : bool :=
  match r with Int16 | UInt16 => true | _ => false end.
Definition isFourBytes (r : MemoryRepresentation) : bool :=
  match r with Int32 | UInt32 | Real32 => true | _ => false end.
Definition isEightBytes (r : MemoryRepresentation) : bool :=
  match r with Int64 | Real64 => true | _ => false end.

Definition sizeofRepresentation (r : MemoryRepresentation) : option Z :=
  if isByteSized r then Some 1
  else if isTwoBytes r then Some 2
  else if isFourBytes r then Some 4
  else if isEightBytes r then Some 8
  else match r with UString => Some sizeof_ustring | _ => None end.

(** The invariant of the class. *)
Definition strideInvariant (sdb : SourceDestBufferImpl) : Prop :=
  exists sz, sizeofRepresentation (memoryRepresentation sdb) = Some sz
             /\ sz <= stride sdb.

(** The element types of the ten numeric constructor overloads. *)
Inductive ElementType : Type :=
| T_int8_t | T_uint8_t | T_int16_t | T_uint16_t | T_int32_t | T_uint32_t
| T_int64_t | T_bool | T_float | T_double.

Definition representationOf (t : ElementType) : MemoryRepresentation :=
  match t with
  | T_int8_t => Int8 | T_uint8_t => UInt8
  | T_int16_t => Int16 | T_uint16_t => UInt16
  | T_int32_t => Int32 | T_uint32_t => UInt32
  | T_int64_t => Int64 | T_bool => Bool
  | T_float => Real32 | T_double => Real64
  end.

(** Modelled from the spec: [SourceDestBufferImpl]'s constructors and
    [setTypeInfo] are not part of the sources at hand.  The specification
    has construction validate that the image file is open, that the path
    is legal, that the capacity is positive and that the stride is at
    least the element size, a stride of zero standing for the element
    size; the cursor starts at zero. *)
Definition newImpl (imfOpen pathLegal : bool) (path : string)
    (rep : MemoryRepresentation) (b cap : Z) (conv scal : bool) (str : Z)
  : result SourceDestBufferImpl :=
  if negb imfOpen then Throw E57_ERROR_IMAGE_FILE_NOT_OPEN
  else if negb pathLegal then Throw E57_ERROR_BAD_PATH_NAME
  else if cap <=? 0 then Throw E57_ERROR_BAD_API_ARGUMENT
  else match sizeofRepresentation rep with
       | None => Throw E57_ERROR_BAD_API_ARGUMENT
       | Some sz =>
           let str' := if str =? 0 then sz else str in
           if str' <? sz then Throw E57_ERROR_BAD_API_ARGUMENT
           else Ok (mkSDB path rep b cap conv scal str' 0)
       end.

(** The numeric overloads
    [SourceDestBuffer( destImageFile, pathName, T *b, capacity,
    doConversion, doScaling, stride )]: the element type of [b] picks the
    representation, the other arguments are handed on. *)
Definition new (imfOpen pathLegal : bool) (path : string) (t : ElementType)
    (b cap : Z) (conv scal : bool) (str : Z) : result SourceDestBufferImpl :=
  newImpl imfOpen pathLegal path (representationOf t) b cap conv scal str.

(** The overload on [std::vector<ustring> *b]: the capacity is the length
    of the vector, there is neither conversion nor scaling, and the
    stride is left at its default. *)
Definition newStrings (imfOpen pathLegal : bool) (path : string)
    (b : Z) (ustrings : list string) : result SourceDestBufferImpl :=
  newImpl imfOpen pathLegal path UString b (Z.of_nat (length ustrings))
          false false 0.

(** The other public member functions are [const] getters. *)
Inductive PublicOp : Type :=
| OpPathName | OpMemoryRepresentation | OpCapacity | OpDoConversion
| OpDoScaling | OpStride | OpDump | OpCheckInvariant.

Definition applyOp (op : PublicOp) (sdb : SourceDestBufferImpl)
  : SourceDestBufferImpl := sdb.

Inductive reachable : SourceDestBufferImpl -> Prop :=
| reach_new io pl path t b cap conv scal str sdb :
    new io pl path t b cap conv scal str = Ok sdb -> reachable sdb
| reach_newStrings io pl path b us sdb :
    newStrings io pl path b us = Ok sdb -> reachable sdb
| reach_op op sdb : reachable sdb -> reachable (applyOp op sdb).

End Invariant.

End SourceDestBuffer.

(** ** The reader's collaborators *)

(** A [SourceDestBuffer] is a handle on a shared [SourceDestBufferImpl]. *)
Definition SourceDestBuffer : Type := nat.

(** The heap of the [SourceDestBufferImpl] objects: a handle is the index
    of its object. *)
Abbreviation Heap := (list SourceDestBufferImpl).

Definition nullImpl : SourceDestBufferImpl :=
  mkSDB EmptyString (NotAnEnumerator 0) 0 0 false false 0 0.

(** [dbuf.impl()]: a handle in use always points to an object, the default
    is never read. *)
Definition impl (heap : Heap) (dbuf : SourceDestBuffer) : SourceDestBufferImpl :=
  default nullImpl (heap !! dbuf).

(** Modelled from the spec: [SourceDestBufferImpl::rewind] (rewind the write
    cursor to zero) is not part of the sources at hand. *)
Definition rewind (dbuf : SourceDestBuffer) (heap : Heap) : Heap :=
  alter (fun b => mkSDB (pathName b) (memoryRepresentation b) (base b)
                        (capacity b) (doConversion b) (doScaling b)
                        (stride b) 0) dbuf heap.

#[global] Instance MemoryRepresentation_eq_dec : EqDecision MemoryRepresentation.
Proof. solve_decision. Defined.

(** Modelled from the spec: [SourceDestBufferImpl::checkCompatible] is not
    part of the sources at hand.  Path, representation, capacity and stride
    of the old and the new buffer must match; the address of the user's
    memory may change. *)
Definition checkCompatible (oldBuf newBuf : SourceDestBufferImpl) : result unit :=
  if negb (bool_decide (pathName oldBuf = pathName newBuf))
  then Throw E57_ERROR_BUFFERS_NOT_COMPATIBLE
  else if negb (bool_decide (memoryRepresentation oldBuf = memoryRepresentation newBuf))
  then Throw E57_ERROR_BUFFERS_NOT_COMPATIBLE
  else if negb (capacity oldBuf =? capacity newBuf)
  then Throw E57_ERROR_BUFFERS_NOT_COMPATIBLE
  else if negb (stride oldBuf =? stride newBuf)
  then Throw E57_ERROR_BUFFERS_NOT_COMPATIBLE
  else Ok tt.

(** What the specification asks of a buffer that replaces another: same
    path, representation, capacity and stride. *)
Definition compatible (oldBuf newBuf : SourceDestBufferImpl) : Prop :=
  pathName oldBuf = pathName newBuf
  /\ memoryRepresentation oldBuf = memoryRepresentation newBuf
  /\ capacity oldBuf = capacity newBuf
  /\ stride oldBuf = stride newBuf.

(** Packets.  Every packet starts with the same three header fields; a data
    packet goes on with its bytestream buffers. *)
Record DataPacketHeader : Type := mkHeader {
  packetType : Z;                   (* uint8_t *)
  packetFlags : Z;                  (* uint8_t *)
  packetLogicalLengthMinus1 : Z;    (* uint16_t *)
  bytestreamCount : Z               (* uint16_t *)
}.

Record DataPacket : Type := mkPacket {
  header : DataPacketHeader;
  payload : list (list Byte.byte)   (* one buffer per bytestream *)
}.

(** The packet kinds of the E57 format: index 0, data 1, empty 2. *)
Definition DATA_PACKET : Z := 1.

Record CompressedVectorSectionHeader : Type := mkSection {
  sectionLogicalLength : Z;
  dataPhysicalOffset : Z
}.

(** [struct DecodeChannel], over the type of the decoders' states. *)
Record DecodeChannel (Decoder : Type) : Type := mkChannel {
  dbuf : SourceDestBuffer;
  decoder : Decoder;
  bytestreamNumber : Z;
  maxRecordCount : Z;
  currentPacketLogicalOffset : Z;
  currentBytestreamBufferIndex : Z;
  currentBytestreamBufferLength : Z;
  inputFinished : bool
}.

Arguments mkChannel {Decoder}.
Arguments dbuf {Decoder}.
Arguments decoder {Decoder}.
Arguments bytestreamNumber {Decoder}.
Arguments maxRecordCount {Decoder}.
Arguments currentPacketLogicalOffset {Decoder}.
Arguments currentBytestreamBufferIndex {Decoder}.
Arguments currentBytestreamBufferLength {Decoder}.
Arguments inputFinished {Decoder}.

(** What the reader calls and the sources at hand do not define: the
    decoders, the two predicates of [DecodeChannel], the prototype, the
    compressed vector node, the packet accessors and the packet cache over
    the checked file.  They are parameters of the development. *)
Class Collaborators : Type := {
  Decoder : Type;
  Prototype : Type;
  NodeImpl : Type;
  CompressedVectorNodeImpl : Type;
  (* Decoder::inputProcess( source, availableByteCount ): [None] is the
     call with [nullptr]; the decoder writes into the heap and returns the
     number of bytes it has taken *)
  inputProcess : Decoder -> option (list Byte.byte) -> Heap ->
                 Heap * result (Decoder * Z);
  DecoderFactory : nat -> CompressedVectorNodeImpl -> SourceDestBuffer ->
                   Heap -> result Decoder;
  isOutputBlocked : DecodeChannel Decoder -> Heap -> bool;
  isInputBlocked : DecodeChannel Decoder -> bool;
  getPrototype : CompressedVectorNodeImpl -> Prototype;
  childCount : CompressedVectorNodeImpl -> Z;
  getBinarySectionLogicalStart : CompressedVectorNodeImpl -> Z;
  checkBuffers : Prototype -> list SourceDestBufferImpl -> bool -> result unit;
  get : Prototype -> string -> result NodeImpl;
  findTerminalPosition : Prototype -> NodeImpl -> option Z;
  (* seek to the section start and read the section header *)
  readSectionHeader : Z -> result CompressedVectorSectionHeader;
  physicalToLogical : Z -> Z;
  (* PacketReadCache::lock: the packet at a logical offset *)
  lock : Z -> result DataPacket;
  getBytestream : DataPacket -> Z -> result (list Byte.byte);
  getBytestreamBufferLength : DataPacket -> Z -> result Z
}.

(** The packets a cache can hand out lie in a file: the offset of a packet
    that [lock] returns is below [2^63] (file offsets are signed 64-bit
    numbers), and its length field is a [uint16_t]. *)
Definition lockWithinFile `{Collaborators} : Prop :=
  forall off pkt, lock off = Ok pkt ->
    0 <= off < 2 ^ 63 /\ 0 <= packetLogicalLengthMinus1 (header pkt) < 2 ^ 16.

(** ** State and the monad of member functions *)

Record ImageFileImpl : Type := mkImf {
  imfIsOpen : bool;
  readerCount_ : Z
}.

(** Modelled from the spec: [ImageFileImpl::incrReaderCount] and
    [decrReaderCount] (increment, decrement the file's reader count) are
    not part of the sources at hand. *)
Definition incrReaderCount (imf : ImageFileImpl) : ImageFileImpl :=
  mkImf (imfIsOpen imf) (readerCount_ imf + 1).
Definition decrReaderCount (imf : ImageFileImpl) : ImageFileImpl :=
  mkImf (imfIsOpen imf) (readerCount_ imf - 1).

Section Reader.

Context `{Collaborators}.

(** The data members.  [proto_] is set once, from
    [cVector_->getPrototype()], before its first use, and is read as such;
    [cache_] records whether the packet cache is allocated. *)
Record CompressedVectorReaderImpl : Type := mkReader {
  isOpen_ : bool;
  dbufs_ : list SourceDestBuffer;
  cVector_ : CompressedVectorNodeImpl;
  channels_ : list (DecodeChannel Decoder);
  cache_ : bool;
  recordCount_ : Z;
  maxRecordCount_ : Z;
  sectionEndLogicalOffset_ : Z
}.

Record State : Type := mkState {
  heap : Heap;
  imf : ImageFileImpl;
  this : CompressedVectorReaderImpl
}.

(** [None]: the fuel ran out.  Otherwise the value returned or the error
    thrown, and the state at that point. *)
Definition M (A : Type) : Type := State -> option (result A * State).

Definition ret {A} (a : A) : M A := fun s => Some (Ok a, s).
Definition throw {A} (e : ErrorCode) : M A := fun s => Some (Throw e, s).
Definition diverge {A} : M A := fun _ => None.
Definition bind {A B} (m : M A) (k : A -> M B) : M B :=
  fun s => match m s with
           | None => None
           | Some (Throw e, s') => Some (Throw e, s')
           | Some (Ok a, s') => k a s'
           end.
Definition lift {A} (r : result A) : M A := fun s => Some (r, s).
Definition gets {A} (f : State -> A) : M A := fun s => Some (Ok (f s), s).
Definition modify (f : State -> State) : M unit := fun s => Some (Ok tt, f s).

End Reader.

Declare Scope reader_scope.
Delimit Scope reader_scope with reader.
Notation "x <- m ;; k" := (bind m (fun x => k))
  (at level 100, m at next level, right associativity) : reader_scope.
Notation "m ;;; k" := (bind m (fun _ => k))
  (at level 100, right associativity) : reader_scope.

(** ** CompressedVectorReaderImpl *)

Section ReaderOps.

Context `{Collaborators}.
Local Open Scope reader_scope.

Abbreviation Channel := (DecodeChannel Decoder).

(** Assignments to data members. *)
Definition setIsOpen (b : bool) (r : CompressedVectorReaderImpl) :=
  mkReader b (dbufs_ r) (cVector_ r) (channels_ r) (cache_ r)
           (recordCount_ r) (maxRecordCount_ r) (sectionEndLogicalOffset_ r).
Definition setDbufs (d : list SourceDestBuffer) (r : CompressedVectorReaderImpl) :=
  mkReader (isOpen_ r) d (cVector_ r) (channels_ r) (cache_ r)
           (recordCount_ r) (maxRecordCount_ r) (sectionEndLogicalOffset_ r).
Definition setChannels (c : list Channel) (r : CompressedVectorReaderImpl) :=
  mkReader (isOpen_ r) (dbufs_ r) (cVector_ r) c (cache_ r)
           (recordCount_ r) (maxRecordCount_ r) (sectionEndLogicalOffset_ r).
Definition setCache (b : bool) (r : CompressedVectorReaderImpl) :=
  mkReader (isOpen_ r) (dbufs_ r) (cVector_ r) (channels_ r) b
           (recordCount_ r) (maxRecordCount_ r) (sectionEndLogicalOffset_ r).
Definition setRecordCounts (n m : Z) (r : CompressedVectorReaderImpl) :=
  mkReader (isOpen_ r) (dbufs_ r) (cVector_ r) (channels_ r) (cache_ r)
           n m (sectionEndLogicalOffset_ r).
Definition setSectionEnd (e : Z) (r : CompressedVectorReaderImpl) :=
  mkReader (isOpen_ r) (dbufs_ r) (cVector_ r) (channels_ r) (cache_ r)
           (recordCount_ r) (maxRecordCount_ r) e.

Definition onThis (f : CompressedVectorReaderImpl -> CompressedVectorReaderImpl)
    (s : State) : State := mkState (heap s) (imf s) (f (this s)).
Definition onImf (f : ImageFileImpl -> ImageFileImpl) (s : State) : State :=
  mkState (heap s) (f (imf s)) (this s).
Definition onHeap (f : Heap -> Heap) (s : State) : State :=
  mkState (f (heap s)) (imf s) (this s).

(** [for ( DecodeChannel &channel : channels_ )]: the body works on the
    channel by reference and on the heap; when it throws, the channels
    already visited keep their new values. *)
Fixpoint forChannels {Acc : Type}
    (body : Channel -> Heap -> Acc -> (Channel * Heap) * result Acc)
    (chans : list Channel) (h : Heap) (acc : Acc)
  : (list Channel * Heap) * result Acc :=
  match chans with
  | [] => (([], h), Ok acc)
  | channel :: rest =>
      match body channel h acc with
      | ((channel', h'), Throw e) => ((channel' :: rest, h'), Throw e)
      | ((channel', h'), Ok acc') =>
          let '((rest', h''), r) := forChannels body rest h' acc' in
          ((channel' :: rest', h''), r)
      end
  end.

Definition forEachChannel {Acc : Type}
    (body : Channel -> Heap -> Acc -> (Channel * Heap) * result Acc)
    (acc : Acc) : M Acc :=
  fun s =>
    let '((chans', h'), r) := forChannels body (channels_ (this s)) (heap s) acc in
    Some (r, mkState h' (imf s) (setChannels chans' (this s))).

(** [checkImageFileOpen]: the body is the comment [unimplemented...]. *)
Definition checkImageFileOpen : M unit := ret tt.

Definition checkReaderOpen : M unit :=
  isOpen <- gets (fun s => isOpen_ (this s));;
  if negb isOpen then throw E57_ERROR_READER_NOT_OPEN else ret tt.

(** The loop of [setBuffers] over the old and the new buffers, which have
    the same number of elements when it runs. *)
Fixpoint checkCompatibleAll (h : Heap) (oldBufs newBufs : list SourceDestBuffer)
  : result unit :=
  match oldBufs, newBufs with
  | oldBuf :: oldBufs', newBuf :: newBufs' =>
      match checkCompatible (impl h oldBuf) (impl h newBuf) with
      | Throw e => Throw e
      | Ok _ => checkCompatibleAll h oldBufs' newBufs'
      end
  | _, _ => Ok tt
  end.

Definition setBuffers (dbufs : list SourceDestBuffer) : M unit :=
  s <- gets id;;
  lift (checkBuffers (getPrototype (cVector_ (this s)))
                     (map (impl (heap s)) dbufs) true);;;
  (if negb (bool_decide (dbufs_ (this s) = []))
   then
     if negb (length (dbufs_ (this s)) =? length dbufs)%nat
     then throw E57_ERROR_BUFFERS_NOT_COMPATIBLE
     else lift (checkCompatibleAll (heap s) (dbufs_ (this s)) dbufs)
   else ret tt);;;
  modify (onThis (setDbufs dbufs)).

(** [findNextDataPacket]: the while loop, on fuel. *)
Fixpoint findNextDataPacketFrom (fuel : nat) (sectionEnd nextPacketLogicalOffset : Z)
  : option (result Z) :=
  match fuel with
  | O => None
  | S fuel' =>
      if nextPacketLogicalOffset <? sectionEnd
      then
        match lock nextPacketLogicalOffset with
        | Throw e => Some (Throw e)
        | Ok dpkt =>
            if packetType (header dpkt) =? DATA_PACKET
            then Some (Ok nextPacketLogicalOffset)
            else findNextDataPacketFrom fuel' sectionEnd
                   (wrap64 (nextPacketLogicalOffset
                            + packetLogicalLengthMinus1 (header dpkt) + 1))
        end
      else Some (Ok E57_UINT64_MAX)
  end.

Definition findNextDataPacket (fuel : nat) (nextPacketLogicalOffset : Z) : M Z :=
  fun s =>
    match findNextDataPacketFrom fuel (sectionEndLogicalOffset_ (this s))
                                 nextPacketLogicalOffset with
    | None => None
    | Some r => Some (r, s)
    end.

Definition needsInput (h : Heap) (chan : Channel) : bool :=
  negb (isOutputBlocked chan h) && negb (inputFinished chan).

(** Body of the loop of [earliestPacketNeededForInput]. *)
Definition earliestStep (h : Heap) (earliestPacketLogicalOffset : Z)
    (chan : Channel) : Z :=
  if needsInput h chan
  then if currentPacketLogicalOffset chan <? earliestPacketLogicalOffset
       then currentPacketLogicalOffset chan
       else earliestPacketLogicalOffset
  else earliestPacketLogicalOffset.

Definition earliestPacketNeededForInput (chans : list Channel) (h : Heap) : Z :=
  fold_left (earliestStep h) chans E57_UINT64_MAX.

Definition _alreadyReadPacket (channel : Channel)
    (currentPacketLogicalOffset' : Z) (h : Heap) : bool :=
  negb (currentPacketLogicalOffset channel =? currentPacketLogicalOffset')
  || isOutputBlocked channel h.

(** Body of the first loop of [feedPacketToDecoders]; the accumulator is
    ([anyChannelHasExhaustedPacket], [nextPacketLogicalOffset]). *)
Definition feedChannel (dpkt : DataPacket) (cur : Z)
    (channel : Channel) (h : Heap) (acc : bool * Z)
  : (Channel * Heap) * result (bool * Z) :=
  if _alreadyReadPacket channel cur h then ((channel, h), Ok acc)
  else
    match getBytestream dpkt (bytestreamNumber channel) with
    | Throw e => ((channel, h), Throw e)
    | Ok bsb =>
        let bsbLength := Z.of_nat (length bsb) in
        if currentBytestreamBufferIndex channel >? bsbLength
        then ((channel, h), Throw E57_ERROR_INTERNAL)
        else
          let uneatenStart := currentBytestreamBufferIndex channel in
          let uneatenLength := bsbLength - currentBytestreamBufferIndex channel in
          if uneatenStart + uneatenLength >? bsbLength
          then ((channel, h), Throw E57_ERROR_INTERNAL)
          else
            match inputProcess (decoder channel)
                    (Some (take (Z.to_nat uneatenLength)
                                (drop (Z.to_nat uneatenStart) bsb))) h with
            | (h', Throw e) => ((channel, h'), Throw e)
            | (h', Ok (decoder', bytesProcessed)) =>
                let channel' :=
                  mkChannel (dbuf channel) decoder' (bytestreamNumber channel)
                    (maxRecordCount channel)
                    (currentPacketLogicalOffset channel)
                    (wrap64 (currentBytestreamBufferIndex channel + bytesProcessed))
                    (currentBytestreamBufferLength channel)
                    (inputFinished channel) in
                if isInputBlocked channel'
                then ((channel', h'),
                      Ok (true,
                          wrap64 (cur + packetLogicalLengthMinus1 (header dpkt) + 1)))
                else ((channel', h'), Ok acc)
            end
    end.

(** Body of the loop that moves the channels to the next data packet. *)
Definition advanceChannel (dpkt : DataPacket) (cur nextPacketLogicalOffset : Z)
    (channel : Channel) (h : Heap) (acc : unit)
  : (Channel * Heap) * result unit :=
  if _alreadyReadPacket channel cur h then ((channel, h), Ok tt)
  else
    let moved (len : Z) :=
      mkChannel (dbuf channel) (decoder channel) (bytestreamNumber channel)
        (maxRecordCount channel) nextPacketLogicalOffset 0 len
        (inputFinished channel) in
    match getBytestreamBufferLength dpkt (bytestreamNumber channel) with
    | Throw e => ((moved (currentBytestreamBufferLength channel), h), Throw e)
    | Ok len => ((moved len, h), Ok tt)
    end.

(** Body of the loop that marks the channels as finished. *)
Definition finishChannel (cur : Z)
    (channel : Channel) (h : Heap) (acc : unit)
  : (Channel * Heap) * result unit :=
  if _alreadyReadPacket channel cur h then ((channel, h), Ok tt)
  else
    ((mkChannel (dbuf channel) (decoder channel) (bytestreamNumber channel)
        (maxRecordCount channel) (currentPacketLogicalOffset channel)
        (currentBytestreamBufferIndex channel)
        (currentBytestreamBufferLength channel) true, h), Ok tt).

(** [dataPacket( inLogicalOffset )] *)
Definition dataPacket (inLogicalOffset : Z) : M DataPacket :=
  lift (lock inLogicalOffset).

(** [feedPacketToDecoders] from the call of [findNextDataPacket] on:
    [fed] is what the first loop has left in
    ([anyChannelHasExhaustedPacket], [nextPacketLogicalOffset]). *)
Definition afterFeeding (fuel : nat) (currentPacketLogicalOffset' : Z)
    (fed : bool * Z) : M unit :=
  let anyChannelHasExhaustedPacket := fst fed in
  nextPacketLogicalOffset <- findNextDataPacket fuel (snd fed);;
  if negb anyChannelHasExhaustedPacket then ret tt
  else if nextPacketLogicalOffset <? E57_UINT64_MAX
  then
    dpkt' <- dataPacket nextPacketLogicalOffset;;
    forEachChannel
      (advanceChannel dpkt' currentPacketLogicalOffset' nextPacketLogicalOffset) tt
  else
    sectionEnd <- gets (fun s => sectionEndLogicalOffset_ (this s));;
    if nextPacketLogicalOffset >=? sectionEnd
    then forEachChannel (finishChannel currentPacketLogicalOffset') tt
    else ret tt.

Definition feedPacketToDecoders (fuel : nat) (currentPacketLogicalOffset' : Z)
  : M unit :=
  dpkt <- dataPacket currentPacketLogicalOffset';;
  if negb (packetType (header dpkt) =? DATA_PACKET)
  then throw E57_ERROR_INTERNAL
  else
    fed <- forEachChannel (feedChannel dpkt currentPacketLogicalOffset')
                          (false, E57_UINT64_MAX);;
    afterFeeding fuel currentPacketLogicalOffset' fed.

(** The [while ( true )] loop of [read]: [scanFuel] is handed to each
    [feedPacketToDecoders], [fuel] bounds the iterations. *)
Fixpoint pullLoop (scanFuel fuel : nat) : M unit :=
  match fuel with
  | O => diverge
  | S fuel' =>
      earliestPacketLogicalOffset <-
        gets (fun s => earliestPacketNeededForInput (channels_ (this s)) (heap s));;
      if earliestPacketLogicalOffset =? E57_UINT64_MAX then ret tt
      else feedPacketToDecoders scanFuel earliestPacketLogicalOffset;;;
           pullLoop scanFuel fuel'
  end.

(** Body of the loop that lets the decoders use what they have queued. *)
Definition drainChannel (channel : Channel) (h : Heap) (acc : unit)
  : (Channel * Heap) * result unit :=
  match inputProcess (decoder channel) None h with
  | (h', Throw e) => ((channel, h'), Throw e)
  | (h', Ok (decoder', _)) =>
      ((mkChannel (dbuf channel) decoder' (bytestreamNumber channel)
          (maxRecordCount channel) (currentPacketLogicalOffset channel)
          (currentBytestreamBufferIndex channel)
          (currentBytestreamBufferLength channel) (inputFinished channel), h'),
       Ok tt)
  end.

(** The loop that verifies that each channel produced the same number of
    records, from index [i] on. *)
Fixpoint verifyOutputCount (h : Heap) (i : nat) (outputCount : Z)
    (chans : list Channel) : result Z :=
  match chans with
  | [] => Ok outputCount
  | chan :: rest =>
      if (i =? 0)%nat
      then verifyOutputCount h (S i) (nextIndex (impl h (dbuf chan))) rest
      else if negb (outputCount =? nextIndex (impl h (dbuf chan)))
           then Throw E57_ERROR_INTERNAL
           else verifyOutputCount h (S i) outputCount rest
  end.

(** [read()] up to the end of its while loop. *)
Definition readUntilDone (fuel : nat) : M unit :=
  checkImageFileOpen;;;
  checkReaderOpen;;;
  dbufs <- gets (fun s => dbufs_ (this s));;
  modify (onHeap (fun h => fold_left (fun h' dbuf => rewind dbuf h') dbufs h));;;
  forEachChannel drainChannel tt;;;
  pullLoop fuel fuel.

Definition read (fuel : nat) : M Z :=
  readUntilDone fuel;;;
  s <- gets id;;
  lift (verifyOutputCount (heap s) 0 0 (channels_ (this s))).

(** [read( dbufs )] *)
Definition readBuffers (fuel : nat) (dbufs : list SourceDestBuffer) : M Z :=
  checkReaderOpen;;;
  setBuffers dbufs;;;
  read fuel.

Definition seek (recordNumber : Z) : M unit :=
  checkImageFileOpen;;;
  throw E57_ERROR_NOT_IMPLEMENTED.

Definition isOpen : M bool := gets (fun s => isOpen_ (this s)).

Definition close : M unit :=
  modify (onImf decrReaderCount);;;
  checkImageFileOpen;;;
  isOpen <- gets (fun s => isOpen_ (this s));;
  if negb isOpen then ret tt
  else
    modify (onThis (setChannels []));;;
    modify (onThis (setCache false));;;
    modify (onThis (setIsOpen false)).

(** The destructor: [close()] if still open, any exception swallowed. *)
Definition destructor : M unit :=
  fun s =>
    if isOpen_ (this s)
    then match close s with
         | Some (Throw _, s') => Some (Ok tt, s')
         | other => other
         end
    else Some (Ok tt, s).

End ReaderOps.

Section ReaderLifetime.

Context `{Collaborators}.
Local Open Scope reader_scope.

Abbreviation Channel := (DecodeChannel Decoder).

(** The object as the member initialisers leave it. *)
Definition initialReader (cvi : CompressedVectorNodeImpl)
  : CompressedVectorReaderImpl :=
  mkReader false [] cvi [] false 0 0 0.

(** Body of the loop that creates a decoder and a channel per buffer;
    [static_cast<unsigned>] truncates the bytestream number. *)
Definition makeChannel (cvi : CompressedVectorNodeImpl) (i : nat)
    (dbuf' : SourceDestBuffer) : M unit :=
  s <- gets id;;
  decoder' <- lift (DecoderFactory i cvi dbuf' (heap s));;
  readNode <- lift (get (getPrototype cvi) (pathName (impl (heap s) dbuf')));;
  match findTerminalPosition (getPrototype cvi) readNode with
  | None => throw E57_ERROR_INTERNAL
  | Some bytestreamNumber' =>
      modify (onThis (fun r =>
        setChannels
          (channels_ r ++
           [mkChannel dbuf' decoder' (bytestreamNumber' mod 2 ^ 32)
                      (childCount cvi) 0 0 0 false]) r))
  end.

Fixpoint makeChannels (cvi : CompressedVectorNodeImpl) (i : nat)
    (dbufs : list SourceDestBuffer) : M unit :=
  match dbufs with
  | [] => ret tt
  | dbuf' :: rest => makeChannel cvi i dbuf';;; makeChannels cvi (S i) rest
  end.

(** Body of the loop that points every channel at the first data packet. *)
Definition seedChannel (dpkt : DataPacket) (dataLogicalOffset : Z)
    (channel : Channel) (h : Heap) (acc : unit)
  : (Channel * Heap) * result unit :=
  let seeded (len : Z) :=
    mkChannel (dbuf channel) (decoder channel) (bytestreamNumber channel)
      (maxRecordCount channel) dataLogicalOffset 0 len (inputFinished channel) in
  match getBytestreamBufferLength dpkt (bytestreamNumber channel) with
  | Throw e => ((seeded (currentBytestreamBufferLength channel), h), Throw e)
  | Ok len => ((seeded len, h), Ok tt)
  end.

(** The constructor
    [CompressedVectorReaderImpl( cvi, dbufs )]. *)
Definition construct (cvi : CompressedVectorNodeImpl)
    (dbufs : list SourceDestBuffer) : M unit :=
  modify (fun s => mkState (heap s) (imf s) (initialReader cvi));;;
  checkImageFileOpen;;;
  if bool_decide (dbufs = []) then throw E57_ERROR_BAD_API_ARGUMENT
  else
    setBuffers dbufs;;;
    bound <- gets (fun s => dbufs_ (this s));;
    makeChannels cvi 0 bound;;;
    modify (onThis (setRecordCounts 0 (childCount cvi)));;;
    modify (onThis (setCache true));;;
    let sectionLogicalStart := getBinarySectionLogicalStart cvi in
    if sectionLogicalStart =? 0 then throw E57_ERROR_INTERNAL
    else
      sectionHeader <- lift (readSectionHeader sectionLogicalStart);;
      modify (onThis (setSectionEnd
        (wrap64 (sectionLogicalStart + sectionLogicalLength sectionHeader))));;;
      let dataLogicalOffset :=
        physicalToLogical (dataPhysicalOffset sectionHeader) in
      dpkt <- lift (lock dataLogicalOffset);;
      if negb (packetType (header dpkt) =? DATA_PACKET)
      then throw E57_ERROR_BAD_CV_PACKET
      else
        forEachChannel (seedChannel dpkt dataLogicalOffset) tt;;;
        modify (onImf incrReaderCount);;;
        modify (onThis (setIsOpen true)).

(** The calls a user can make on a reader between its construction and
    its [close()], and a run of them; a call that throws leaves the state
    it had reached. *)
Inductive ReaderCall : Type :=
| CallRead
| CallReadBuffers (dbufs : list SourceDestBuffer)
| CallSeek (recordNumber : Z)
| CallIsOpen.

Definition call (fuel : nat) (c : ReaderCall) : M unit :=
  match c with
  | CallRead => (read fuel;;; ret tt)
  | CallReadBuffers dbufs => (readBuffers fuel dbufs;;; ret tt)
  | CallSeek n => seek n
  | CallIsOpen => (isOpen;;; ret tt)
  end.

Fixpoint runCalls (fuel : nat) (calls : list ReaderCall) (s : State)
  : option State :=
  match calls with
  | [] => Some s
  | c :: rest =>
      match call fuel c s with
      | None => None
      | Some (_, s') => runCalls fuel rest s'
      end
  end.

(** The scan of [findNextDataPacket] as the specification words it: walk
    forward from [start], skipping each packet that is not a data packet
    by its header length, until a data packet is found or the end of the
    section is reached or passed; a packet that cannot be read ends the
    scan with its error. *)
Inductive nextDataPacket (sectionEnd : Z) : Z -> result Z -> Prop :=
| scan_pastEnd start :
    sectionEnd <= start ->
    nextDataPacket sectionEnd start (Ok E57_UINT64_MAX)
| scan_found start pkt :
    start < sectionEnd -> lock start = Ok pkt ->
    packetType (header pkt) = DATA_PACKET ->
    nextDataPacket sectionEnd start (Ok start)
| scan_skip start pkt r :
    start < sectionEnd -> lock start = Ok pkt ->
    packetType (header pkt) <> DATA_PACKET ->
    nextDataPacket sectionEnd
      (start + (packetLogicalLengthMinus1 (header pkt) + 1)) r ->
    nextDataPacket sectionEnd start r
| scan_unreadable start e :
    start < sectionEnd -> lock start = Throw e ->
    nextDataPacket sectionEnd start (Throw e).

(** The fields of a channel that [feedPacketToDecoders] touches only when
    some channel has exhausted the packet. *)
Definition packetPosition (channel : Channel) : Z * Z * bool :=
  (currentPacketLogicalOffset channel,
   currentBytestreamBufferLength channel,
   inputFinished channel).

(** The state in which a call of [close()] ends. *)
Definition closed (s : State) : State :=
  mkState (heap s) (decrReaderCount (imf s))
          (if isOpen_ (this s)
           then setIsOpen false (setCache false (setChannels [] (this s)))
           else this s).


End ReaderLifetime.

(** ** A small file and a byte-per-record decoder

    Concrete collaborators on which the member functions can be run: a
    prototype with two fields, a section of three packets (data, index,
    data) and decoders that turn one byte into one record. *)
Module Fixture.

Record CVNode : Type := mkCVNode {
  terminals : list string;
  records : Z;
  sectionStart : Z
}.

Definition advanceCursor (k : Z) (b : SourceDestBufferImpl) : SourceDestBufferImpl :=
  mkSDB (pathName b) (memoryRepresentation b) (base b) (capacity b)
        (doConversion b) (doScaling b) (stride b) (nextIndex b + k).

(** The state of a decoder is the handle of its destination. *)
Definition byteInputProcess (d : SourceDestBuffer)
    (source : option (list Byte.byte)) (h : Heap)
  : Heap * result (SourceDestBuffer * Z) :=
  match source with
  | None => (h, Ok (d, 0))
  | Some bytes =>
      let k := Z.min (Z.of_nat (length bytes))
                     (capacity (impl h d) - nextIndex (impl h d)) in
      (alter (advanceCursor k) d h, Ok (d, k))
  end.

(** Modelled from the spec: a channel is output-blocked when its
    destination is full, input-blocked when it has consumed its slice of
    the current packet. *)
Definition outputBlocked (c : DecodeChannel SourceDestBuffer) (h : Heap) : bool :=
  nextIndex (impl h (dbuf c)) =? capacity (impl h (dbuf c)).
Definition inputBlocked (c : DecodeChannel SourceDestBuffer) : bool :=
  currentBytestreamBufferIndex c >=? currentBytestreamBufferLength c.

Fixpoint position (path : string) (paths : list string) (i : Z) : option Z :=
  match paths with
  | [] => None
  | p :: rest => if bool_decide (p = path) then Some i else position path rest (i + 1)
  end.

Definition knownPaths (paths : list string) (bufs : list SourceDestBufferImpl)
    (allowMissing : bool) : result unit :=
  if forallb (fun b => bool_decide (is_Some (position (pathName b) paths 0))) bufs
  then Ok tt else Throw E57_ERROR_BAD_PATH_NAME.

Definition lookupPath (paths : list string) (path : string) : result string :=
  match position path paths 0 with
  | Some _ => Ok path
  | None => Throw E57_ERROR_BAD_PATH_NAME
  end.

Definition dataPacketOf (lengthMinus1 : Z) (streams : list (list Byte.byte)) : DataPacket :=
  mkPacket (mkHeader DATA_PACKET 0 lengthMinus1 (Z.of_nat (length streams))) streams.
Definition indexPacketOf (lengthMinus1 : Z) : DataPacket :=
  mkPacket (mkHeader 0 0 lengthMinus1 0) [].

(** The section: a data packet at 100, an index packet at 116, a data
    packet at 124; it starts at 64 and ends at 136. *)
Definition packets : list (Z * DataPacket) :=
  [ (100, dataPacketOf 15 [[Byte.x01; Byte.x02; Byte.x03];
                           [Byte.x04; Byte.x05; Byte.x06]]);
    (116, indexPacketOf 7);
    (124, dataPacketOf 11 [[Byte.x07; Byte.x08]; [Byte.x09; Byte.x0a]]) ].

Fixpoint packetAt (file : list (Z * DataPacket)) (off : Z) : result DataPacket :=
  match file with
  | [] => Throw E57_ERROR_BAD_CV_PACKET
  | (o, p) :: rest => if o =? off then Ok p else packetAt rest off
  end.

Definition stream (p : DataPacket) (n : Z) : result (list Byte.byte) :=
  if (n <? 0) || (Z.of_nat (length (payload p)) <=? n) then Throw E57_ERROR_INTERNAL
  else Ok (nth (Z.to_nat n) (payload p) []).

Definition streamLength (p : DataPacket) (n : Z) : result Z :=
  match stream p n with
  | Ok bytes => Ok (Z.of_nat (length bytes))
  | Throw e => Throw e
  end.

Definition collaborators : Collaborators := {|
  Decoder := SourceDestBuffer;
  Prototype := list string;
  NodeImpl := string;
  CompressedVectorNodeImpl := CVNode;
  inputProcess := byteInputProcess;
  DecoderFactory := fun _ _ d _ => Ok d;
  isOutputBlocked := outputBlocked;
  isInputBlocked := inputBlocked;
  getPrototype := terminals;
  childCount := records;
  getBinarySectionLogicalStart := sectionStart;
  checkBuffers := knownPaths;
  get := lookupPath;
  findTerminalPosition := fun paths node => position node paths 0;
  readSectionHeader := fun _ => Ok (mkSection 72 100);
  physicalToLogical := fun off => off;
  lock := packetAt packets;
  getBytestream := stream;
  getBytestreamBufferLength := streamLength
|}.

Definition cvi : CVNode := mkCVNode ["x"; "y"]%string 5 64.

(** Two buffers of four elements on the two fields; a third one that
    could replace the first (same attributes, other memory); a fourth one
    on the second field that holds two elements only.  The arguments are
    the write cursors. *)
Definition buffersAt (n0 n1 n2 n3 : Z) : Heap :=
  [ mkSDB "x" Int8 4096 4 false false 1 n0;
    mkSDB "y" UInt8 8192 4 false false 1 n1;
    mkSDB "x" Int8 12288 4 false false 1 n2;
    mkSDB "y" UInt8 16384 2 false false 1 n3 ].

Definition buffers : Heap := buffersAt 0 0 0 0.

Definition fresh (fileOpen : bool) : @State collaborators :=
  @mkState collaborators buffers (mkImf fileOpen 0)
           (@initialReader collaborators cvi).

Definition channelAt (d : SourceDestBuffer) (n off index len : Z) (finished : bool)
  : DecodeChannel SourceDestBuffer :=
  mkChannel d d n 5 off index len finished.

(** An open reader on the example file, the only one. *)
Definition readerState (fileOpen : bool) (h : Heap) (dbufs : list SourceDestBuffer)
    (chans : list (DecodeChannel SourceDestBuffer)) : @State collaborators :=
  @mkState collaborators h (mkImf fileOpen 1)
    (@mkReader collaborators true dbufs cvi chans true 0 5 136).

(** The state after the construction of a reader on the first two
    buffers: both channels are at the first data packet, which holds
    three bytes for each of them. *)
Definition opened (fileOpen : bool) : @State collaborators :=
  readerState fileOpen buffers [0%nat; 1%nat]
    [channelAt 0%nat 0 100 0 3 false; channelAt 1%nat 1 100 0 3 false].

(** After the first packet has been fed: three records in each buffer,
    both channels at the start of the second data packet. *)
Definition afterFirstPacket (fileOpen : bool) : @State collaborators :=
  readerState fileOpen (buffersAt 3 3 0 0) [0%nat; 1%nat]
    [channelAt 0%nat 0 124 0 2 false; channelAt 1%nat 1 124 0 2 false].

(** After the first [read()]: the buffers are full, one byte of the
    second data packet is consumed on each channel. *)
Definition afterFirstRead (fileOpen : bool) : @State collaborators :=
  readerState fileOpen (buffersAt 4 4 0 0) [0%nat; 1%nat]
    [channelAt 0%nat 0 124 1 2 false; channelAt 1%nat 1 124 1 2 false].

(** After the second [read()]: one more record in each buffer, the
    second data packet is consumed and the end of the section reached. *)
Definition afterSecondRead (fileOpen : bool) : @State collaborators :=
  readerState fileOpen (buffersAt 1 1 0 0) [0%nat; 1%nat]
    [channelAt 0%nat 0 124 2 2 true; channelAt 1%nat 1 124 2 2 true].

(** After the first [read()], the third buffer bound in the place of the
    first. *)
Definition rebound : @State collaborators :=
  readerState true (buffersAt 4 4 0 0) [2%nat; 1%nat]
    [channelAt 0%nat 0 124 1 2 false; channelAt 1%nat 1 124 1 2 false].



(** After a third [read()], which finds every channel finished: the
    buffers are rewound, nothing else has changed. *)
Definition afterThirdRead (fileOpen : bool) : @State collaborators :=
  readerState fileOpen buffers [0%nat; 1%nat]
    [channelAt 0%nat 0 124 2 2 true; channelAt 1%nat 1 124 2 2 true].

(** After [read( dbufs )] has bound the third buffer in the place of the
    first and run [read()]: the channels are on the buffers of the
    construction. *)
Definition afterReboundRead : @State collaborators :=
  readerState true (buffersAt 4 1 0 0) [2%nat; 1%nat]
    [channelAt 0%nat 0 124 1 2 false; channelAt 1%nat 1 124 2 2 true].

(** The uneven reader with its buffers rewound, one channel at each data
    packet, and the state after the first data packet has been fed. *)
Definition unevenRewound : @State collaborators :=
  readerState true buffers [0%nat; 3%nat]
    [channelAt 0%nat 0 124 1 2 false; channelAt 3%nat 1 100 2 3 false].

Definition unevenAdvanced : @State collaborators :=
  readerState true (buffersAt 0 0 0 1) [0%nat; 3%nat]
    [channelAt 0%nat 0 124 1 2 false; channelAt 3%nat 1 124 0 2 false].

End Fixture.
(** ** What a reader keeps over its lifetime *)

Section ReaderInvariants.

Context `{Collaborators}.

(** The image file and the members of the reader that no call made between
    the construction and [close()] assigns. *)
Definition sameReaderObject (s s' : State) : Prop :=
  imf s' = imf s
  /\ isOpen_ (this s') = isOpen_ (this s)
  /\ cVector_ (this s') = cVector_ (this s)
  /\ cache_ (this s') = cache_ (this s)
  /\ recordCount_ (this s') = recordCount_ (this s)
  /\ maxRecordCount_ (this s') = maxRecordCount_ (this s)
  /\ sectionEndLogicalOffset_ (this s') = sectionEndLogicalOffset_ (this s).

(** The members of a channel that are set when it is created. *)
Definition sameBinding (c c' : DecodeChannel Decoder) : Prop :=
  dbuf c' = dbuf c
  /\ bytestreamNumber c' = bytestreamNumber c
  /\ maxRecordCount c' = maxRecordCount c.

Definition staysFinished (c c' : DecodeChannel Decoder) : Prop :=
  inputFinished c = true -> inputFinished c' = true.

(** A channel that is not at the packet being fed is left as it is. *)
Definition untouchedUnlessAt (cur : Z) (c c' : DecodeChannel Decoder) : Prop :=
  currentPacketLogicalOffset c <> cur -> c' = c.

(** The packet a channel is at is a data packet that the cache returns. *)
Definition atDataPacket (c : DecodeChannel Decoder) : Prop :=
  exists pkt, lock (currentPacketLogicalOffset c) = Ok pkt
              /\ packetType (header pkt) = DATA_PACKET.

(** A channel as the constructor leaves it: on the buffer it was created
    for, at the start of the first data packet. *)
Definition freshChannel (cvi : CompressedVectorNodeImpl) (dataLogicalOffset : Z)
    (c : DecodeChannel Decoder) : Prop :=
  maxRecordCount c = childCount cvi
  /\ currentPacketLogicalOffset c = dataLogicalOffset
  /\ currentBytestreamBufferIndex c = 0
  /\ inputFinished c = false.

(** The channels as [makeChannels] creates them. *)
Definition created (cvi : CompressedVectorNodeImpl) (c : DecodeChannel Decoder) : Prop :=
  maxRecordCount c = childCount cvi /\ inputFinished c = false.

(** What the constructor has done when it returns, and what it has left
    when it throws. *)
Definition constructed (cvi : CompressedVectorNodeImpl)
    (dbufs : list SourceDestBuffer) (s : State) (r : result unit) (s' : State)
  : Prop :=
  heap s' = heap s
  /\ cVector_ (this s') = cvi
  /\ match r with
     | Throw _ => isOpen_ (this s') = false /\ imf s' = imf s
     | Ok _ =>
         dbufs <> []
         /\ getBinarySectionLogicalStart cvi <> 0
         /\ exists sectionHeader dpkt,
             readSectionHeader (getBinarySectionLogicalStart cvi) = Ok sectionHeader
             /\ lock (physicalToLogical (dataPhysicalOffset sectionHeader)) = Ok dpkt
             /\ packetType (header dpkt) = DATA_PACKET
             /\ isOpen_ (this s') = true
             /\ imf s' = incrReaderCount (imf s)
             /\ dbufs_ (this s') = dbufs
             /\ cache_ (this s') = true
             /\ recordCount_ (this s') = 0
             /\ maxRecordCount_ (this s') = childCount cvi
             /\ sectionEndLogicalOffset_ (this s')
                = wrap64 (getBinarySectionLogicalStart cvi
                          + sectionLogicalLength sectionHeader)
             /\ map dbuf (channels_ (this s')) = dbufs
             /\ Forall (freshChannel cvi
                          (physicalToLogical (dataPhysicalOffset sectionHeader)))
                       (channels_ (this s'))
     end.

End ReaderInvariants.

(** ** VectorNode *)

Module VectorNode.

(** What [VectorNode] calls on its implementation object and on the generic
    [Node] handles of its children; the sources at hand do not define
    them.  Handles compare by the object they point to. *)
Class NodeOps : Type := {
  Node : Type;
  Node_eq_dec :: EqDecision Node;
  destImageFileIsOpen : Node -> bool;
  Node_checkInvariant : Node -> bool -> bool -> result unit;
  childCount : Node -> result Z;
  get : Node -> Z -> result Node;
  getByName : Node -> string -> result Node;
  isDefined : Node -> string -> result bool;
  parent : Node -> result Node;
  elementName : Node -> result string
}.

Definition andThen {A B : Type} (r : result A) (k : A -> result B) : result B :=
  match r with
  | Ok a => k a
  | Throw e => Throw e
  end.

Section Invariant.

Context `{NodeOps}.

(** Body of the loop of [checkInvariant] for the child at index [i]. *)
Definition checkChild (this : Node) (doRecurse : bool) (i : Z) : result unit :=
  andThen (get this i) (fun child =>
  andThen (if doRecurse then Node_checkInvariant child doRecurse true else Ok tt)
          (fun _ =>
  andThen (parent child) (fun childParent =>
  if negb (bool_decide (this = childParent)) then Throw ErrorInvarianceViolation
  else
    andThen (elementName child) (fun name =>
    andThen (isDefined this name) (fun defined =>
    if negb defined then Throw ErrorInvarianceViolation
    else
      andThen (elementName child) (fun name' =>
      andThen (getByName this name') (fun n =>
      if negb (bool_decide (n = child)) then Throw ErrorInvarianceViolation
      else Ok tt))))))).

(** The loop [for ( int64_t i = 0; i < childCount(); i++ )], with the
    number of iterations left. *)
Fixpoint checkChildren (this : Node) (doRecurse : bool) (left : nat) (i : Z)
  : result unit :=
  match left with
  | O => Ok tt
  | S left' =>
      andThen (checkChild this doRecurse i)
              (fun _ => checkChildren this doRecurse left' (i + 1))
  end.

(** [VectorNode::checkInvariant( doRecurse, doUpcast )] *)
Definition checkInvariant (this : Node) (doRecurse doUpcast : bool) : result unit :=
  if negb (destImageFileIsOpen this) then Ok tt
  else
    andThen (if doUpcast then Node_checkInvariant this false false else Ok tt)
            (fun _ =>
    andThen (childCount this) (fun count =>
    checkChildren this doRecurse (Z.to_nat count) 0)).

(** What the loop checks of the child at index [i]. *)
Definition childConsistent (this : Node) (doRecurse : bool) (i : Z) : Prop :=
  exists child name,
    get this i = Ok child
    /\ (doRecurse = true -> Node_checkInvariant child true true = Ok tt)
    /\ parent child = Ok this
    /\ elementName child = Ok name
    /\ isDefined this name = Ok true
    /\ getByName this name = Ok child.

End Invariant.

(** A vector node, 0, with two children, 1 and 2, named "0" and "1". *)
Definition exampleChildren (n : nat) : list nat :=
  match n with
  | O => [1%nat; 2%nat]
  | _ => []
  end.

Definition exampleGet (n : nat) (i : Z) : result nat :=
  if (i <? 0) || (Z.of_nat (length (exampleChildren n)) <=? i)
  then Throw (ErrorOther 3)
  else Ok (nth (Z.to_nat i) (exampleChildren n) O).

Definition exampleName (n : nat) : result string :=
  match n with
  | 1%nat => Ok "0"
  | 2%nat => Ok "1"
  | _ => Ok ""
  end%string.

Definition exampleByName (n : nat) (name : string) : result nat :=
  if bool_decide (name = "0"%string) then exampleGet n 0
  else if bool_decide (name = "1"%string) then exampleGet n 1
  else Throw (ErrorOther 22).

Definition exampleDefined (n : nat) (name : string) : result bool :=
  match exampleByName n name with
  | Ok _ => Ok true
  | Throw _ => Ok false
  end.

Definition exampleOps (fileOpen : bool) : NodeOps := {|
  Node := nat;
  destImageFileIsOpen := fun _ => fileOpen;
  Node_checkInvariant := fun _ _ _ => Ok tt;
  childCount := fun n => Ok (Z.of_nat (length (exampleChildren n)));
  get := exampleGet;
  getByName := exampleByName;
  isDefined := exampleDefined;
  parent := fun n => Ok O;
  elementName := exampleName
|}.

(** The same tree, in which the second child names the node 3 as its
    parent. *)
Definition brokenOps : NodeOps := {|
  Node := nat;
  destImageFileIsOpen := fun _ => true;
  Node_checkInvariant := fun _ _ _ => Ok tt;
  childCount := fun n => Ok (Z.of_nat (length (exampleChildren n)));
  get := exampleGet;
  getByName := exampleByName;
  isDefined := exampleDefined;
  parent := fun n => match n with 2%nat => Ok 3%nat | _ => Ok O end;
  elementName := exampleName
|}.

End VectorNode.

(** * Properties *)

(** ** SourceDestBuffer *)

Section InvariantFacts.

Variable sizeof_ustring : Z.

Import SourceDestBuffer.

Lemma sizeofRepresentation_None r :
  sizeofRepresentation sizeof_ustring r = None <-> exists raw, r = NotAnEnumerator raw.
Proof.
  split.
  - destruct r; cbn; try discriminate. eauto.
  - intros [raw ->]. reflexivity.
Qed.

(** The switch of [checkInvariant] computes the size table. *)
Lemma checkInvariant_by_size sdb :
  checkInvariant sizeof_ustring sdb =
  match sizeofRepresentation sizeof_ustring (memoryRepresentation sdb) with
  | None => Throw ErrorInvarianceViolation
  | Some sz => if stride sdb <? sz then Throw ErrorInvarianceViolation else Ok tt
  end.
Proof. unfold checkInvariant. destruct (memoryRepresentation sdb); reflexivity. Qed.

Lemma newImpl_strideInvariant io pl path rep b cap conv scal str sdb :
  newImpl sizeof_ustring io pl path rep b cap conv scal str = Ok sdb ->
  strideInvariant sizeof_ustring sdb.
Proof.
  unfold newImpl, strideInvariant.
  destruct (negb io); [discriminate|].
  destruct (negb pl); [discriminate|].
  destruct (cap <=? 0); [discriminate|].
  destruct (sizeofRepresentation sizeof_ustring rep) as [sz|] eqn:Hsz; [|discriminate].
  destruct (Z.ltb_spec (if str =? 0 then sz else str) sz) as [|Hle]; [discriminate|].
  intros [= <-]. cbn. eauto.
Qed.

Lemma reachable_strideInvariant sdb :
  reachable sizeof_ustring sdb -> strideInvariant sizeof_ustring sdb.
Proof.
  induction 1 as [? ? ? ? ? ? ? ? ? ? Hnew | ? ? ? ? ? ? Hnew | ? ? _ IH].
  - eapply newImpl_strideInvariant, Hnew.
  - eapply newImpl_strideInvariant, Hnew.
  - exact IH.
Qed.

Lemma checkInvariant_passes sdb :
  checkInvariant sizeof_ustring sdb = Ok tt <-> strideInvariant sizeof_ustring sdb.
Proof.
  rewrite checkInvariant_by_size. unfold strideInvariant.
  destruct (sizeofRepresentation sizeof_ustring (memoryRepresentation sdb)) as [sz|].
  - destruct (Z.ltb_spec (stride sdb) sz); split.
    + discriminate.
    + intros (sz' & [= <-] & ?). lia.
    + eauto.
    + reflexivity.
  - split; [discriminate|]. intros (? & [=] & _).
Qed.

End InvariantFacts.

(** C9.  Every [SourceDestBuffer] that the public constructors build and
    the public member functions leave behind has a stride at least the size
    of its representation (1 for Int8, UInt8, Bool; 2 for Int16, UInt16; 4
    for Int32, UInt32, Real32; 8 for Int64, Real64; [sizeof(ustring)] for
    UString), and [checkInvariant] accepts it; [checkInvariant] throws
    [ErrorInvarianceViolation] exactly when the representation is not an
    enumerator or the stride is below that size, and returns otherwise. *)
Theorem checkInvariant_stride_at_least_size (sizeof_ustring : Z) :
  (forall sdb,
      SourceDestBuffer.reachable sizeof_ustring sdb ->
      (exists sz,
          SourceDestBuffer.sizeofRepresentation sizeof_ustring
            (memoryRepresentation sdb) = Some sz /\ sz <= stride sdb)
      /\ SourceDestBuffer.checkInvariant sizeof_ustring sdb = Ok tt)
  /\ (forall sdb,
         SourceDestBuffer.checkInvariant sizeof_ustring sdb
         = Throw ErrorInvarianceViolation
         <-> ((exists raw, memoryRepresentation sdb = NotAnEnumerator raw)
              \/ exists sz,
                 SourceDestBuffer.sizeofRepresentation sizeof_ustring
                   (memoryRepresentation sdb) = Some sz /\ stride sdb < sz))
  /\ (forall sdb,
         SourceDestBuffer.checkInvariant sizeof_ustring sdb
         = Throw ErrorInvarianceViolation
         \/ SourceDestBuffer.checkInvariant sizeof_ustring sdb = Ok tt)
  /\ (forall r,
         SourceDestBuffer.sizeofRepresentation sizeof_ustring r =
         match r with
         | Int8 | UInt8 | Bool => Some 1
         | Int16 | UInt16 => Some 2
         | Int32 | UInt32 | Real32 => Some 4
         | Int64 | Real64 => Some 8
         | UString => Some sizeof_ustring
         | NotAnEnumerator _ => None
         end).
Proof.
  split; [|split; [|split]].
  - intros sdb Hreach.
    pose proof (reachable_strideInvariant _ _ Hreach) as Hinv.
    split; [exact Hinv|]. by apply checkInvariant_passes.
  - intros sdb. rewrite checkInvariant_by_size.
    destruct (SourceDestBuffer.sizeofRepresentation sizeof_ustring
                (memoryRepresentation sdb)) as [sz|] eqn:Hsz.
    + destruct (Z.ltb_spec (stride sdb) sz); split.
      * intros _. right. eauto.
      * reflexivity.
      * discriminate.
      * intros [[raw Hraw] | (sz' & [= <-] & ?)]; [|lia].
        rewrite Hraw in Hsz. discriminate.
    + split; [|reflexivity]. intros _. left.
      by apply sizeofRepresentation_None in Hsz.
  - intros sdb. rewrite checkInvariant_by_size.
    destruct (SourceDestBuffer.sizeofRepresentation _ _) as [sz|]; [|by left].
    destruct (stride sdb <? sz); [by left|by right].
  - intros r. destruct r; reflexivity.
Qed.

Lemma checkInvariant_stride_at_least_size_witness :
  SourceDestBuffer.checkInvariant 32 (mkSDB "cartesianX" Real64 4096 100 false true 24 0)
  = Ok tt
  /\ SourceDestBuffer.checkInvariant 32 (mkSDB "cartesianX" Real64 4096 100 false true 4 0)
     = Throw ErrorInvarianceViolation.
Proof.
  split.
  - apply (proj1 (checkInvariant_stride_at_least_size 32)).
    apply (SourceDestBuffer.reach_new 32 true true "cartesianX"
             SourceDestBuffer.T_double 4096 100 false true 24).
    reflexivity.
  - apply (proj1 (proj2 (checkInvariant_stride_at_least_size 32)) _).
    right. exists 8. split; [reflexivity|]. cbn. lia.
Defined.

(** ** The reader: close, the image-file check, construction *)

Ltac run_monad :=
  unfold bind, ret, throw, lift, gets, modify, diverge in *; cbn [fst snd] in *.

Section CloseFacts.

Context `{Collaborators}.
Local Open Scope reader_scope.

Lemma checkImageFileOpen_never_throws (s : State) :
  checkImageFileOpen s = Some (Ok tt, s).
Proof. reflexivity. Qed.

Lemma close_runs (s : State) : close s = Some (Ok tt, closed s).
Proof.
  unfold close, closed, checkImageFileOpen. run_monad. cbn.
  destruct (isOpen_ (this s)); reflexivity.
Qed.

Lemma closed_isOpen (s : State) : isOpen_ (this (closed s)) = false.
Proof. unfold closed. cbn. destruct (isOpen_ (this s)) eqn:E; [reflexivity|exact E]. Qed.

Lemma closed_readerCount (s : State) :
  readerCount_ (imf (closed s)) = readerCount_ (imf s) - 1.
Proof. reflexivity. Qed.

Lemma destructor_after_close (s : State) :
  destructor (closed s) = Some (Ok tt, closed s).
Proof. unfold destructor. by rewrite closed_isOpen. Qed.

Lemma seek_throws (n : Z) (s : State) :
  seek n s = Some (Throw E57_ERROR_NOT_IMPLEMENTED, s).
Proof. reflexivity. Qed.

Lemma construct_empty (cvi : CompressedVectorNodeImpl) (s : State) :
  construct cvi [] s =
  Some (Throw E57_ERROR_BAD_API_ARGUMENT,
        mkState (heap s) (imf s) (initialReader cvi)).
Proof. reflexivity. Qed.

End CloseFacts.

(** C1.  The specification has [close()] idempotent, the reader count
    being decremented once however often [close()] is called.  The code
    decrements the count before it tests [isOpen_]: each call of [close()]
    takes one off the count, so that two calls on the reader of the example
    file leave the count at -1, where one call (or one call followed by the
    destructor) leaves it at 0.  Everything else is as the claim has it. *)
Theorem close_decrements_on_every_call :
  (forall `{Collaborators} (s : State),
      exists s1 s2,
        close s = Some (Ok tt, s1) /\ close s1 = Some (Ok tt, s2)
        /\ this s2 = this s1 /\ heap s2 = heap s1
        /\ readerCount_ (imf s1) = readerCount_ (imf s) - 1
        /\ readerCount_ (imf s2) = readerCount_ (imf s) - 2
        /\ destructor s1 = Some (Ok tt, s1))
  /\ readerCount_ (imf (Fixture.opened true)) = 1
  /\ (exists s1,
         @close Fixture.collaborators (Fixture.opened true) = Some (Ok tt, s1)
         /\ readerCount_ (imf s1) = 0)
  /\ (exists s2,
         @bind Fixture.collaborators _ _ close (fun _ => close) (Fixture.opened true)
         = Some (Ok tt, s2)
         /\ readerCount_ (imf s2) = -1).
Proof.
  split; [|split; [|split]].
  - intros C s. exists (closed s), (closed (closed s)).
    rewrite !close_runs, destructor_after_close.
    split; [reflexivity|]. split; [reflexivity|].
    split; [unfold closed at 1; cbn [this]; by rewrite closed_isOpen|].
    split; [reflexivity|]. split; [reflexivity|].
    split; [rewrite !closed_readerCount; lia|reflexivity].
  - reflexivity.
  - eexists. split; [apply close_runs|]. reflexivity.
  - eexists. unfold bind. rewrite !close_runs. split; reflexivity.
Qed.

(** C2.  The specification has every reader operation on a closed image
    file raise [ImageFileNotOpen].  [checkImageFileOpen], which the
    constructor, [read], [seek] and [close] call for that purpose, is not
    implemented and never throws: on the example file, closed, the
    constructor builds an open reader, [read] returns 4 records, [seek]
    throws [NotImplemented] and [close] returns. *)
Theorem closed_image_file_is_not_detected :
  (forall `{Collaborators} (s : State), checkImageFileOpen s = Some (Ok tt, s))
  /\ imfIsOpen (imf (Fixture.fresh false)) = false
  /\ @construct Fixture.collaborators Fixture.cvi [0%nat; 1%nat] (Fixture.fresh false)
     = Some (Ok tt, Fixture.opened false)
  /\ isOpen_ (this (Fixture.opened false)) = true
  /\ imfIsOpen (imf (Fixture.opened false)) = false
  /\ @read Fixture.collaborators 8 (Fixture.opened false)
     = Some (Ok 4, Fixture.afterFirstRead false)
  /\ @seek Fixture.collaborators 0 (Fixture.opened false)
     = Some (Throw E57_ERROR_NOT_IMPLEMENTED, Fixture.opened false)
  /\ (exists s', @close Fixture.collaborators (Fixture.opened false) = Some (Ok tt, s')).
Proof.
  split; [intros; reflexivity|].
  split; [reflexivity|].
  split; [vm_compute; reflexivity|].
  split; [vm_compute; reflexivity|].
  split; [vm_compute; reflexivity|].
  split; [vm_compute; reflexivity|].
  split; [reflexivity|].
  eexists. apply close_runs.
Qed.

(** C8.  The constructor called with an empty list of buffers throws
    [BadApiArgument]; the object is left as the member initialisers made
    it (not open, no channel, no buffer bound, no cache), and neither the
    reader count of the image file nor the buffers have changed. *)
Theorem construct_rejects_empty_buffers `{Collaborators}
    (cvi : CompressedVectorNodeImpl) (s : State) :
  exists s',
    construct cvi [] s = Some (Throw E57_ERROR_BAD_API_ARGUMENT, s')
    /\ isOpen_ (this s') = false
    /\ channels_ (this s') = []
    /\ dbufs_ (this s') = []
    /\ cache_ (this s') = false
    /\ readerCount_ (imf s') = readerCount_ (imf s)
    /\ imf s' = imf s
    /\ heap s' = heap s.
Proof.
  eexists. rewrite construct_empty. repeat split.
Qed.

(** ** The scan for the next data packet *)

Lemma wrap64_small (z : Z) : 0 <= z < 2 ^ 64 -> wrap64 z = z.
Proof. intros Hz. unfold wrap64. by apply Z.mod_small. Qed.

Lemma Fixture_packetAt_In (file : list (Z * DataPacket)) (off : Z) (pkt : DataPacket) :
  Fixture.packetAt file off = Ok pkt -> In (off, pkt) file.
Proof.
  induction file as [|[o p] rest IH]; cbn [Fixture.packetAt]; [discriminate|].
  destruct (Z.eqb_spec o off) as [->|_].
  - intros [= ->]. by left.
  - intros Hrest. right. by apply IH.
Qed.

Lemma Fixture_lockWithinFile : @lockWithinFile Fixture.collaborators.
Proof.
  intros off pkt Hlock. apply Fixture_packetAt_In in Hlock.
  unfold Fixture.packets in Hlock. cbn [In] in Hlock.
  destruct Hlock as [[= <- <-]|[[= <- <-]|[[= <- <-]|[]]]];
    (split; [vm_compute; split; [discriminate|reflexivity]
            |vm_compute; split; [discriminate|reflexivity]]).
Qed.

Section ScanFacts.

Context `{Collaborators}.
Hypothesis lock_wf : lockWithinFile.

(** Skipping a packet that the cache has returned does not wrap. *)
Lemma skip_packet (off : Z) (pkt : DataPacket) :
  lock off = Ok pkt ->
  wrap64 (off + packetLogicalLengthMinus1 (header pkt) + 1)
  = off + (packetLogicalLengthMinus1 (header pkt) + 1)
  /\ off < off + (packetLogicalLengthMinus1 (header pkt) + 1).
Proof.
  intros Hlock. destruct (lock_wf _ _ Hlock) as [Hoff Hlen].
  split; [|lia]. rewrite wrap64_small; [lia|].
  assert (2 ^ 63 + 2 ^ 16 < 2 ^ 64) by (vm_compute; reflexivity). lia.
Qed.

Lemma nextDataPacket_computed (sectionEnd start : Z) (r : result Z) :
  nextDataPacket sectionEnd start r ->
  forall fuel, (Z.to_nat (sectionEnd - start) < fuel)%nat ->
               findNextDataPacketFrom fuel sectionEnd start = Some r.
Proof.
  induction 1 as [start Hend | start pkt Hlt Hlock Hdata
                 | start pkt r Hlt Hlock Hother _ IH | start e Hlt Hlock];
    intros [|fuel] Hfuel; try lia; cbn.
  - destruct (Z.ltb_spec start sectionEnd); [lia|reflexivity].
  - destruct (Z.ltb_spec start sectionEnd); [|lia].
    rewrite Hlock, Hdata. reflexivity.
  - destruct (Z.ltb_spec start sectionEnd); [|lia].
    rewrite Hlock. destruct (Z.eqb_spec (packetType (header pkt)) DATA_PACKET);
      [contradiction|].
    destruct (skip_packet _ _ Hlock) as [-> Hgrow]. apply IH. lia.
  - destruct (Z.ltb_spec start sectionEnd); [|lia].
    rewrite Hlock. reflexivity.
Qed.

Lemma nextDataPacket_exists (fuel : nat) :
  forall sectionEnd start,
    (Z.to_nat (sectionEnd - start) < fuel)%nat ->
    exists r, nextDataPacket sectionEnd start r.
Proof.
  induction fuel as [|fuel IH]; intros sectionEnd start Hfuel; [lia|].
  destruct (Z.lt_ge_cases start sectionEnd) as [Hlt|Hge].
  - destruct (lock start) as [pkt|e] eqn:Hlock.
    + destruct (Z.eq_dec (packetType (header pkt)) DATA_PACKET) as [Hdata|Hother].
      * eexists. eapply scan_found; eauto.
      * destruct (skip_packet _ _ Hlock) as [_ Hgrow].
        destruct (IH sectionEnd
                    (start + (packetLogicalLengthMinus1 (header pkt) + 1)))
          as [r Hr]; [lia|].
        exists r. eapply scan_skip; eauto.
    + eexists. eapply scan_unreadable; eauto.
  - eexists. by apply scan_pastEnd.
Qed.

Lemma nextDataPacket_found (sectionEnd start : Z) (r : result Z) :
  nextDataPacket sectionEnd start r ->
  forall off, r = Ok off -> off <> E57_UINT64_MAX ->
              start <= off < sectionEnd
              /\ exists pkt, lock off = Ok pkt
                             /\ packetType (header pkt) = DATA_PACKET.
Proof.
  induction 1 as [start Hend | start pkt Hlt Hlock Hdata
                 | start pkt r Hlt Hlock Hother _ IH | start e Hlt Hlock];
    intros off Hr Hmax.
  - congruence.
  - injection Hr as <-. split; [lia|eauto].
  - destruct (skip_packet _ _ Hlock) as [_ Hgrow].
    destruct (IH off Hr Hmax) as [Hrange Hpkt]. split; [lia|exact Hpkt].
  - discriminate.
Qed.

(** Whatever the fuel, a result of the scan is one of the relation. *)
Lemma findNextDataPacketFrom_sound (fuel : nat) :
  forall sectionEnd start r,
    findNextDataPacketFrom fuel sectionEnd start = Some r ->
    nextDataPacket sectionEnd start r.
Proof.
  induction fuel as [|fuel IH]; intros sectionEnd start r; cbn; [discriminate|].
  destruct (Z.ltb_spec start sectionEnd) as [Hlt|Hge].
  - destruct (lock start) as [pkt|e] eqn:Hlock.
    + destruct (Z.eqb_spec (packetType (header pkt)) DATA_PACKET) as [Hdata|Hother].
      * intros [= <-]. eapply scan_found; eauto.
      * destruct (skip_packet _ _ Hlock) as [-> _]. intros Hrec.
        eapply scan_skip; eauto.
    + intros [= <-]. by apply scan_unreadable.
  - intros [= <-]. by apply scan_pastEnd.
Qed.

End ScanFacts.

(** C5.  Given that the cache hands out packets of a file,
    [findNextDataPacket( start )] terminates (with enough fuel it has a
    result, the same for all larger fuel, and it leaves the state alone),
    and its result is the one of the scan that the specification describes:
    from [start], packets that are not data packets are skipped by their
    header length, the offset of the first data packet met is returned,
    and [E57_UINT64_MAX] is returned when the scan reaches or passes the
    end of the section, in particular at once when [start] is not before
    the end of the section, as the sentinel [E57_UINT64_MAX] never is. *)
Theorem findNextDataPacket_scans_to_next_data_packet `{Collaborators}
    (s : State) (start : Z) :
  lockWithinFile ->
  exists r,
    nextDataPacket (sectionEndLogicalOffset_ (this s)) start r
    /\ (forall fuel,
           (Z.to_nat (sectionEndLogicalOffset_ (this s) - start) < fuel)%nat ->
           findNextDataPacket fuel start s = Some (r, s))
    /\ (sectionEndLogicalOffset_ (this s) <= start -> r = Ok E57_UINT64_MAX)
    /\ (sectionEndLogicalOffset_ (this s) <= E57_UINT64_MAX ->
        findNextDataPacket 1 E57_UINT64_MAX s = Some (Ok E57_UINT64_MAX, s))
    /\ (forall off,
           r = Ok off -> off <> E57_UINT64_MAX ->
           start <= off < sectionEndLogicalOffset_ (this s)
           /\ exists pkt, lock off = Ok pkt
                          /\ packetType (header pkt) = DATA_PACKET).
Proof.
  intros lock_wf.
  destruct (nextDataPacket_exists lock_wf
              (S (Z.to_nat (sectionEndLogicalOffset_ (this s) - start)))
              (sectionEndLogicalOffset_ (this s)) start) as [r Hr]; [lia|].
  exists r. split; [exact Hr|]. split; [|split; [|split]].
  - intros fuel Hfuel. unfold findNextDataPacket.
    by rewrite (nextDataPacket_computed lock_wf _ _ _ Hr fuel Hfuel).
  - intros Hend.
    pose proof (nextDataPacket_computed lock_wf _ _ _ Hr 1%nat) as Hone.
    cbn in Hone. destruct (Z.ltb_spec start (sectionEndLogicalOffset_ (this s)));
      [lia|].
    assert (Some (Ok E57_UINT64_MAX) = Some r) as [= <-]; [apply Hone; lia|].
    reflexivity.
  - intros Hend. unfold findNextDataPacket. cbn.
    destruct (Z.ltb_spec E57_UINT64_MAX (sectionEndLogicalOffset_ (this s)));
      [lia|reflexivity].
  - apply (nextDataPacket_found lock_wf _ _ _ Hr).
Qed.

Lemma findNextDataPacket_scans_to_next_data_packet_witness :
  @nextDataPacket Fixture.collaborators 136 116 (Ok 124)
  /\ @findNextDataPacket Fixture.collaborators 21 116 (Fixture.opened true)
     = Some (Ok 124, Fixture.opened true).
Proof.
  destruct (@findNextDataPacket_scans_to_next_data_packet Fixture.collaborators
              (Fixture.opened true) 116 Fixture_lockWithinFile)
    as (r & Hscan & Hfuel & _).
  assert (Hrun : @findNextDataPacket Fixture.collaborators 21 116 (Fixture.opened true)
                 = Some (r, Fixture.opened true)).
  { apply Hfuel. vm_compute. lia. }
  assert (Hval : @findNextDataPacket Fixture.collaborators 21 116 (Fixture.opened true)
                 = Some (Ok 124, Fixture.opened true))
    by (vm_compute; reflexivity).
  rewrite Hval in Hrun. injection Hrun as <-.
  split; [exact Hscan|exact Hval].
Defined.

(** ** Loops over the channels *)

Section ChannelLoops.

Context `{Collaborators}.

Abbreviation Channel := (DecodeChannel Decoder).

(** A relation that every step of the body establishes between a channel
    before and after holds along the whole list, whether the loop runs
    to its end or throws on the way. *)
Lemma forChannels_related {Acc : Type} (R : Channel -> Channel -> Prop)
    (body : Channel -> Heap -> Acc -> (Channel * Heap) * result Acc) :
  (forall c, R c c) ->
  (forall c h a c' h' r, body c h a = ((c', h'), r) -> R c c') ->
  forall chans h a chans' h' r,
    forChannels body chans h a = ((chans', h'), r) ->
    Forall2 R chans chans'.
Proof.
  intros Hrefl Hbody. induction chans as [|c rest IH]; intros h a chans' h' r; cbn.
  - intros [= <- <- <-]. constructor.
  - destruct (body c h a) as [[c1 h1] [a1|e]] eqn:Hstep.
    + destruct (forChannels body rest h1 a1) as [[rest1 h2] r1] eqn:Hrest.
      intros [= <- <- <-]. constructor; [eapply Hbody, Hstep|eapply IH, Hrest].
    + intros [= <- <- <-]. constructor; [eapply Hbody, Hstep|].
      clear IH. induction rest; constructor; auto.
Qed.

(** A property of the accumulator that every step keeps holds of the
    accumulator returned. *)
Lemma forChannels_accumulated {Acc : Type} (P : Acc -> Prop)
    (body : Channel -> Heap -> Acc -> (Channel * Heap) * result Acc) :
  (forall c h a c' h' a', body c h a = ((c', h'), Ok a') -> P a -> P a') ->
  forall chans h a chans' h' a',
    forChannels body chans h a = ((chans', h'), Ok a') -> P a -> P a'.
Proof.
  intros Hbody. induction chans as [|c rest IH]; intros h a chans' h' a'; cbn.
  - intros [= <- <- <-]. auto.
  - destruct (body c h a) as [[c1 h1] [a1|e]] eqn:Hstep; [|discriminate].
    destruct (forChannels body rest h1 a1) as [[rest1 h2] r1] eqn:Hrest.
    intros [= <- <- ->] Ha. eapply IH; [exact Hrest|]. eapply Hbody; eauto.
Qed.

Lemma forEachChannel_inv {Acc : Type}
    (body : Channel -> Heap -> Acc -> (Channel * Heap) * result Acc)
    (a : Acc) (s : State) :
  exists chans' h' r,
    forChannels body (channels_ (this s)) (heap s) a = ((chans', h'), r)
    /\ forEachChannel body a s
       = Some (r, mkState h' (imf s) (setChannels chans' (this s))).
Proof.
  unfold forEachChannel.
  destruct (forChannels body (channels_ (this s)) (heap s) a) as [[chans' h'] r].
  eauto.
Qed.

Lemma Forall2_same_image {A B : Type} (f : A -> B) (l k : list A) :
  Forall2 (fun x y => f x = f y) l k -> map f k = map f l.
Proof. induction 1; cbn; congruence. Qed.

End ChannelLoops.

(** ** The selection of the earliest packet *)

Section EarliestFacts.

Context `{Collaborators}.

Lemma earliest_fold (h : Heap) (chans : list (DecodeChannel Decoder)) :
  forall start,
    let e := fold_left (earliestStep h) chans start in
    e <= start
    /\ (forall chan, In chan chans -> needsInput h chan = true ->
                     e <= currentPacketLogicalOffset chan)
    /\ (e = start
        \/ exists chan, In chan chans /\ needsInput h chan = true
                        /\ currentPacketLogicalOffset chan = e).
Proof.
  induction chans as [|c rest IH]; intros start; cbn [fold_left].
  - cbn. split; [lia|]. split; [intros ? []|by left].
  - destruct (IH (earliestStep h start c)) as (Hle & Hmin & Hwho).
    assert (Hstep : earliestStep h start c <= start
                    /\ (needsInput h c = true ->
                        earliestStep h start c <= currentPacketLogicalOffset c)
                    /\ (earliestStep h start c = start
                        \/ needsInput h c = true
                           /\ currentPacketLogicalOffset c = earliestStep h start c)).
    { unfold earliestStep. destruct (needsInput h c).
      - destruct (Z.ltb_spec (currentPacketLogicalOffset c) start).
        + split; [lia|]. split; [lia|]. right. by split.
        + split; [lia|]. split; [lia|]. by left.
      - split; [lia|]. split; [discriminate|by left]. }
    destruct Hstep as (Hs1 & Hs2 & Hs3).
    split; [cbn; lia|]. split.
    + intros chan [<-|Hin] Hneed; [specialize (Hs2 Hneed); cbn; lia|].
      by apply Hmin.
    + destruct Hwho as [Heq|(chan & Hin & Hneed & Hoff)].
      * destruct Hs3 as [Hsame|[Hneed Hoff]].
        -- left. cbn. lia.
        -- right. exists c. split; [by left|]. split; [exact Hneed|]. cbn. lia.
      * right. exists chan. split; [by right|]. by split.
Qed.

Lemma pullLoop_step (scanFuel fuel : nat) (s : State) :
  pullLoop scanFuel (S fuel) s =
  if earliestPacketNeededForInput (channels_ (this s)) (heap s) =? E57_UINT64_MAX
  then Some (Ok tt, s)
  else bind (feedPacketToDecoders scanFuel
               (earliestPacketNeededForInput (channels_ (this s)) (heap s)))
            (fun _ => pullLoop scanFuel fuel) s.
Proof.
  cbn [pullLoop]. unfold bind at 1, gets. cbn beta iota.
  destruct (_ =? E57_UINT64_MAX); reflexivity.
Qed.

End EarliestFacts.

(** C4.  [earliestPacketNeededForInput] returns the least
    [currentPacketLogicalOffset] of the channels that are neither
    output-blocked nor [inputFinished] (it is below the offset of each of
    them, and, when it is not [E57_UINT64_MAX], it is the offset of one of
    them), and [E57_UINT64_MAX] when there is no such channel.  An
    iteration of the loop of [read] returns when the selection is
    [E57_UINT64_MAX], and otherwise feeds the packet at the selected offset
    and goes on. *)
Theorem read_feeds_earliest_packet `{Collaborators} :
  (forall (chans : list (DecodeChannel Decoder)) (h : Heap),
      (forall chan, In chan chans ->
                    isOutputBlocked chan h = false -> inputFinished chan = false ->
                    earliestPacketNeededForInput chans h
                    <= currentPacketLogicalOffset chan)
      /\ (earliestPacketNeededForInput chans h <> E57_UINT64_MAX ->
          exists chan, In chan chans
                       /\ isOutputBlocked chan h = false
                       /\ inputFinished chan = false
                       /\ currentPacketLogicalOffset chan
                          = earliestPacketNeededForInput chans h)
      /\ ((forall chan, In chan chans ->
                        isOutputBlocked chan h = true \/ inputFinished chan = true) ->
          earliestPacketNeededForInput chans h = E57_UINT64_MAX))
  /\ (forall (scanFuel fuel : nat) (s : State),
         (earliestPacketNeededForInput (channels_ (this s)) (heap s) = E57_UINT64_MAX ->
          pullLoop scanFuel (S fuel) s = Some (Ok tt, s))
         /\ (earliestPacketNeededForInput (channels_ (this s)) (heap s) <> E57_UINT64_MAX ->
             pullLoop scanFuel (S fuel) s
             = bind (feedPacketToDecoders scanFuel
                       (earliestPacketNeededForInput (channels_ (this s)) (heap s)))
                    (fun _ => pullLoop scanFuel fuel) s)).
Proof.
  split.
  - intros chans h.
    destruct (earliest_fold h chans E57_UINT64_MAX) as (Hle & Hmin & Hwho).
    change (fold_left (earliestStep h) chans E57_UINT64_MAX)
      with (earliestPacketNeededForInput chans h) in *.
    assert (Hneeds : forall chan, needsInput h chan = true <->
                                  isOutputBlocked chan h = false
                                  /\ inputFinished chan = false).
    { intros chan. unfold needsInput.
      destruct (isOutputBlocked chan h), (inputFinished chan); cbn; intuition congruence. }
    split; [|split].
    + intros chan Hin Hout Hfin. apply Hmin; [exact Hin|]. by apply Hneeds.
    + intros Hne. destruct Hwho as [Heq|(chan & Hin & Hneed & Hoff)]; [contradiction|].
      apply Hneeds in Hneed as [Hout Hfin]. exists chan. auto.
    + intros Hnone. destruct Hwho as [Heq|(chan & Hin & Hneed & Hoff)]; [exact Heq|].
      apply Hneeds in Hneed as [Hout Hfin].
      destruct (Hnone chan Hin); congruence.
  - intros scanFuel fuel s. rewrite pullLoop_step. split.
    + intros ->. reflexivity.
    + intros Hne.
      destruct (Z.eqb_spec (earliestPacketNeededForInput (channels_ (this s)) (heap s))
                           E57_UINT64_MAX); [contradiction|reflexivity].
Qed.

Lemma read_feeds_earliest_packet_witness :
  @earliestPacketNeededForInput Fixture.collaborators
    (channels_ (this (Fixture.opened true))) (heap (Fixture.opened true)) = 100
  /\ (exists chan,
         In chan (channels_ (this (Fixture.opened true)))
         /\ @isOutputBlocked Fixture.collaborators chan (heap (Fixture.opened true)) = false
         /\ inputFinished chan = false
         /\ currentPacketLogicalOffset chan = 100)
  /\ @pullLoop Fixture.collaborators 8 8 (Fixture.opened true)
     = @bind Fixture.collaborators _ _
         (@feedPacketToDecoders Fixture.collaborators 8 100)
         (fun _ => @pullLoop Fixture.collaborators 8 7) (Fixture.opened true).
Proof.
  assert (Hsel : @earliestPacketNeededForInput Fixture.collaborators
                   (channels_ (this (Fixture.opened true)))
                   (heap (Fixture.opened true)) = 100)
    by (vm_compute; reflexivity).
  assert (Hne : @earliestPacketNeededForInput Fixture.collaborators
                  (channels_ (this (Fixture.opened true)))
                  (heap (Fixture.opened true)) <> E57_UINT64_MAX)
    by (rewrite Hsel; vm_compute; discriminate).
  split; [exact Hsel|]. split.
  - destruct (proj1 (@read_feeds_earliest_packet Fixture.collaborators)
                (channels_ (this (Fixture.opened true)))
                (heap (Fixture.opened true))) as (_ & Hwho & _).
    destruct (Hwho Hne) as (chan & Hin & Hout & Hfin & Hoff).
    exists chan. rewrite Hsel in Hoff. auto.
  - pose proof (proj2 (proj2 (@read_feeds_earliest_packet Fixture.collaborators)
                         8%nat 7%nat (Fixture.opened true)) Hne) as Hloop.
    rewrite Hsel in Hloop. exact Hloop.
Defined.

(** ** The record count that [read] returns *)

Section OutputCountFacts.

Context `{Collaborators}.



Lemma read_unfold (fuel : nat) (s : State) :
  read fuel s =
  match readUntilDone fuel s with
  | None => None
  | Some (Throw e, s1) => Some (Throw e, s1)
  | Some (Ok _, s1) =>
      Some (verifyOutputCount (heap s1) 0 0 (channels_ (this s1)), s1)
  end.
Proof.
  unfold read, bind at 1.
  destruct (readUntilDone fuel s) as [[[[]|e] s1]|]; reflexivity.
Qed.

End OutputCountFacts.



(** ** Feeding a packet *)

Section FeedFacts.

Context `{Collaborators}.

(** The first loop of [feedPacketToDecoders] leaves the packet, the
    length of the slice and the finished flag of every channel alone,
    whether it returns or throws. *)
Lemma feedChannel_position (dpkt : DataPacket) (cur : Z)
    (c : DecodeChannel Decoder) (h : Heap) (a : bool * Z) c' h' r :
  feedChannel dpkt cur c h a = ((c', h'), r) ->
  packetPosition c = packetPosition c'.
Proof.
  unfold feedChannel.
  destruct (_alreadyReadPacket c cur h); [by intros [= <- <- <-]|].
  destruct (getBytestream dpkt (bytestreamNumber c)) as [bsb|e];
    [|by intros [= <- <- <-]].
  destruct (_ >? _); [by intros [= <- <- <-]|].
  destruct (_ >? _); [by intros [= <- <- <-]|].
  destruct (inputProcess _ _ h) as [h1 [[d' n]|e]]; [|by intros [= <- <- <-]].
  destruct (isInputBlocked _); by intros [= <- <- <-].
Qed.

(** The flag is raised by a channel that is fed and is then
    input-blocked, and by nothing else; the offset that comes with a
    raised flag is the one behind the current packet. *)
Lemma feedChannel_flag (dpkt : DataPacket) (cur : Z)
    (c : DecodeChannel Decoder) (h : Heap) (a : bool * Z) c' h' a' :
  feedChannel dpkt cur c h a = ((c', h'), Ok a') ->
  fst a' = fst a || (negb (_alreadyReadPacket c cur h) && isInputBlocked c')
  /\ (a' = a
      \/ a' = (true, wrap64 (cur + packetLogicalLengthMinus1 (header dpkt) + 1))).
Proof.
  unfold feedChannel.
  destruct (_alreadyReadPacket c cur h).
  { intros [= <- <- <-]. split; [by rewrite orb_false_r|by left]. }
  destruct (getBytestream dpkt (bytestreamNumber c)) as [bsb|e]; [|discriminate].
  destruct (_ >? _); [discriminate|].
  destruct (_ >? _); [discriminate|].
  destruct (inputProcess _ _ h) as [h1 [[d' n]|e]]; [|discriminate].
  destruct (isInputBlocked _) eqn:Hblocked; intros [= <- <- <-]; rewrite Hblocked.
  - split; [by rewrite orb_true_r|by right].
  - split; [by rewrite orb_false_r|by left].
Qed.

Lemma feedChannels_sentinel (dpkt : DataPacket) (cur : Z) chans h chans' h' a' :
  forChannels (feedChannel dpkt cur) chans h (false, E57_UINT64_MAX)
  = ((chans', h'), Ok a') ->
  (fst a' = false -> snd a' = E57_UINT64_MAX)
  /\ (fst a' = true ->
      snd a' = wrap64 (cur + packetLogicalLengthMinus1 (header dpkt) + 1)).
Proof.
  intros Hloop.
  eapply (forChannels_accumulated
            (fun a => (fst a = false -> snd a = E57_UINT64_MAX)
                      /\ (fst a = true ->
                          snd a = wrap64 (cur + packetLogicalLengthMinus1
                                                  (header dpkt) + 1))));
    [|exact Hloop|cbn; split; [reflexivity|discriminate]].
  intros c h0 a c1 h1 a1 Hstep Ha.
  destruct (feedChannel_flag _ _ _ _ _ _ _ _ Hstep) as [_ [->| ->]];
    [exact Ha|cbn; split; [discriminate|reflexivity]].
Qed.

Lemma findNextDataPacket_sentinel (fuel : nat) (s : State) :
  sectionEndLogicalOffset_ (this s) <= E57_UINT64_MAX ->
  findNextDataPacket (S fuel) E57_UINT64_MAX s = Some (Ok E57_UINT64_MAX, s).
Proof.
  intros Hend. unfold findNextDataPacket. cbn [findNextDataPacketFrom].
  destruct (Z.ltb_spec E57_UINT64_MAX (sectionEndLogicalOffset_ (this s)));
    [lia|reflexivity].
Qed.

Lemma feedPacketToDecoders_unfold (fuel : nat) (cur : Z) (s : State) :
  feedPacketToDecoders fuel cur s =
  match lock cur with
  | Throw e => Some (Throw e, s)
  | Ok dpkt =>
      if packetType (header dpkt) =? DATA_PACKET
      then bind (forEachChannel (feedChannel dpkt cur) (false, E57_UINT64_MAX))
                (afterFeeding fuel cur) s
      else Some (Throw E57_ERROR_INTERNAL, s)
  end.
Proof.
  unfold feedPacketToDecoders, dataPacket. unfold bind at 1, lift.
  destruct (lock cur) as [dpkt|e]; [|reflexivity].
  destruct (packetType (header dpkt) =? DATA_PACKET); reflexivity.
Qed.

End FeedFacts.

(** C10.  When the first loop of [feedPacketToDecoders] ends without any
    channel having exhausted its slice (the flag
    [anyChannelHasExhaustedPacket], which a fed channel raises when it is
    input-blocked after its feed, is still down), the offset handed to
    [findNextDataPacket] is the sentinel [E57_UINT64_MAX],
    [findNextDataPacket] returns it at once and changes nothing, and the
    function returns with the state the loop has left: the
    [currentPacketLogicalOffset], the [currentBytestreamBufferLength] and
    the [inputFinished] flag of every channel are what they were. *)
Theorem feedPacketToDecoders_without_exhaustion `{Collaborators}
    (fuel : nat) (cur : Z) (dpkt : DataPacket) (s s1 : State) (next : Z) :
  sectionEndLogicalOffset_ (this s) <= E57_UINT64_MAX ->
  lock cur = Ok dpkt ->
  packetType (header dpkt) = DATA_PACKET ->
  forEachChannel (feedChannel dpkt cur) (false, E57_UINT64_MAX) s
  = Some (Ok (false, next), s1) ->
  next = E57_UINT64_MAX
  /\ findNextDataPacket (S fuel) next s1 = Some (Ok E57_UINT64_MAX, s1)
  /\ feedPacketToDecoders (S fuel) cur s = Some (Ok tt, s1)
  /\ map packetPosition (channels_ (this s1)) = map packetPosition (channels_ (this s))
  /\ (forall c h a c' h' a',
         feedChannel dpkt cur c h a = ((c', h'), Ok a') ->
         fst a' = fst a || (negb (_alreadyReadPacket c cur h) && isInputBlocked c')).
Proof.
  intros Hend Hlock Hdata Hfeed.
  destruct (forEachChannel_inv (feedChannel dpkt cur) (false, E57_UINT64_MAX) s)
    as (chans' & h' & r & Hloop & Hrun).
  rewrite Hrun in Hfeed. injection Hfeed as -> <-.
  destruct (feedChannels_sentinel _ _ _ _ _ _ _ Hloop) as [Hdown _].
  specialize (Hdown eq_refl). cbn in Hdown. subst next.
  assert (Hscan : findNextDataPacket (S fuel) E57_UINT64_MAX
                    (mkState h' (imf s) (setChannels chans' (this s)))
                  = Some (Ok E57_UINT64_MAX,
                          mkState h' (imf s) (setChannels chans' (this s))))
    by (by apply findNextDataPacket_sentinel).
  split; [reflexivity|]. split; [exact Hscan|]. split; [|split].
  - rewrite feedPacketToDecoders_unfold, Hlock, Hdata, Z.eqb_refl.
    unfold bind at 1. rewrite Hrun. unfold afterFeeding, bind. cbn [fst snd].
    rewrite Hscan. reflexivity.
  - cbn [this setChannels channels_].
    apply Forall2_same_image.
    eapply forChannels_related; [| |exact Hloop].
    + reflexivity.
    + intros c h0 a c1 h1 r1. apply feedChannel_position.
  - intros c h0 a c1 h1 a1 Hstep. eapply feedChannel_flag, Hstep.
Qed.

Lemma feedPacketToDecoders_without_exhaustion_witness :
  @feedPacketToDecoders Fixture.collaborators 8 124 (Fixture.afterFirstPacket true)
  = Some (Ok tt, Fixture.afterFirstRead true)
  /\ map (@packetPosition Fixture.collaborators)
         (channels_ (this (Fixture.afterFirstRead true)))
     = map (@packetPosition Fixture.collaborators)
           (channels_ (this (Fixture.afterFirstPacket true)))
  /\ map currentBytestreamBufferIndex
         (channels_ (this (Fixture.afterFirstPacket true))) = [0; 0]
  /\ map currentBytestreamBufferIndex
         (channels_ (this (Fixture.afterFirstRead true))) = [1; 1].
Proof.
  destruct (@feedPacketToDecoders_without_exhaustion Fixture.collaborators
              7 124 (Fixture.dataPacketOf 11 [[Byte.x07; Byte.x08];
                                              [Byte.x09; Byte.x0a]])
              (Fixture.afterFirstPacket true) (Fixture.afterFirstRead true)
              E57_UINT64_MAX)
    as (_ & _ & Hrun & Hsame & _).
  - vm_compute. discriminate.
  - vm_compute; reflexivity.
  - reflexivity.
  - vm_compute; reflexivity.
  - split; [exact Hrun|]. split; [exact Hsame|]. split; reflexivity.
Defined.

(** ** Binding buffers *)

Section SetBuffersFacts.

Context `{Collaborators}.

Lemma setBuffers_unfold (dbufs : list SourceDestBuffer) (s : State) :
  setBuffers dbufs s =
  match checkBuffers (getPrototype (cVector_ (this s)))
                     (map (impl (heap s)) dbufs) true with
  | Throw e => Some (Throw e, s)
  | Ok _ =>
      if negb (bool_decide (dbufs_ (this s) = []))
      then
        if negb (length (dbufs_ (this s)) =? length dbufs)%nat
        then Some (Throw E57_ERROR_BUFFERS_NOT_COMPATIBLE, s)
        else match checkCompatibleAll (heap s) (dbufs_ (this s)) dbufs with
             | Throw e => Some (Throw e, s)
             | Ok _ => Some (Ok tt, onThis (setDbufs dbufs) s)
             end
      else Some (Ok tt, onThis (setDbufs dbufs) s)
  end.
Proof.
  unfold setBuffers, bind, gets, lift, modify, throw, ret. cbn [id].
  destruct (checkBuffers _ _ true); [|reflexivity].
  destruct (negb (bool_decide (dbufs_ (this s) = []))); [|reflexivity].
  destruct (negb _); [reflexivity|].
  destruct (checkCompatibleAll _ _ _); reflexivity.
Qed.

End SetBuffersFacts.

(** ** The offsets of the channels never go back *)

Section MonotoneFacts.

Context `{Collaborators}.
Hypothesis lock_wf : lockWithinFile.

Local Abbreviation grows :=
  (Forall2 (fun c c' : DecodeChannel Decoder =>
              currentPacketLogicalOffset c <= currentPacketLogicalOffset c')).

Lemma grows_refl (chans : list (DecodeChannel Decoder)) : grows chans chans.
Proof. induction chans; constructor; [lia|assumption]. Qed.

Lemma grows_trans (l k m : list (DecodeChannel Decoder)) :
  grows l k -> grows k m -> grows l m.
Proof. apply Forall2_trans. intros x y z. cbn. lia. Qed.

(** A loop whose body never lowers the offset of its channel. *)
Lemma forEachChannel_grows {Acc : Type}
    (body : DecodeChannel Decoder -> Heap -> Acc
            -> (DecodeChannel Decoder * Heap) * result Acc) (a : Acc) :
  (forall c h a c' h' r,
      body c h a = ((c', h'), r) ->
      currentPacketLogicalOffset c <= currentPacketLogicalOffset c') ->
  forall s r s',
    forEachChannel body a s = Some (r, s') ->
    grows (channels_ (this s)) (channels_ (this s'))
    /\ sectionEndLogicalOffset_ (this s') = sectionEndLogicalOffset_ (this s).
Proof.
  intros Hbody s r s' Hrun.
  destruct (forEachChannel_inv body a s) as (chans' & h' & r' & Hloop & Hrun').
  rewrite Hrun' in Hrun. injection Hrun as <- <-. split; [|reflexivity].
  cbn [this setChannels channels_].
  eapply (forChannels_related
            (fun c c' => currentPacketLogicalOffset c
                         <= currentPacketLogicalOffset c'));
    [intros; lia|exact Hbody|exact Hloop].
Qed.

Lemma feedChannel_offset (dpkt : DataPacket) (cur : Z) c h (a : bool * Z) c' h' r :
  feedChannel dpkt cur c h a = ((c', h'), r) ->
  currentPacketLogicalOffset c <= currentPacketLogicalOffset c'.
Proof.
  intros Hstep. apply feedChannel_position in Hstep.
  unfold packetPosition in Hstep. injection Hstep as -> _ _. lia.
Qed.

Lemma advanceChannel_offset (dpkt : DataPacket) (cur next : Z) c h (a : unit) c' h' r :
  cur <= next ->
  advanceChannel dpkt cur next c h a = ((c', h'), r) ->
  currentPacketLogicalOffset c <= currentPacketLogicalOffset c'.
Proof.
  intros Hle. unfold advanceChannel, _alreadyReadPacket.
  destruct (Z.eqb_spec (currentPacketLogicalOffset c) cur) as [Heq|_]; cbn [negb orb].
  - destruct (isOutputBlocked c h); [intros [= <- <- <-]; lia|].
    destruct (getBytestreamBufferLength dpkt (bytestreamNumber c));
      intros [= <- <- <-]; cbn; lia.
  - intros [= <- <- <-]. lia.
Qed.

Lemma finishChannel_offset (cur : Z) c h (a : unit) c' h' r :
  finishChannel cur c h a = ((c', h'), r) ->
  currentPacketLogicalOffset c <= currentPacketLogicalOffset c'.
Proof.
  unfold finishChannel. destruct (_alreadyReadPacket c cur h);
    intros [= <- <- <-]; cbn; lia.
Qed.

Lemma drainChannel_offset c h (a : unit) c' h' r :
  drainChannel c h a = ((c', h'), r) ->
  currentPacketLogicalOffset c <= currentPacketLogicalOffset c'.
Proof.
  unfold drainChannel. destruct (inputProcess (decoder c) None h) as [h1 [[d n]|e]];
    intros [= <- <- <-]; cbn; lia.
Qed.

(** The second half of [feedPacketToDecoders], when the offset that the
    first loop has left is, if the flag is up, behind the current
    packet. *)
Lemma afterFeeding_grows (fuel : nat) (cur : Z) (fed : bool * Z) s r s' :
  (fst fed = true -> cur <= snd fed) -> cur < 2 ^ 63 ->
  afterFeeding fuel cur fed s = Some (r, s') ->
  grows (channels_ (this s)) (channels_ (this s')).
Proof.
  intros Hfed Hcur. unfold afterFeeding. unfold bind at 1.
  unfold findNextDataPacket.
  destruct (findNextDataPacketFrom fuel (sectionEndLogicalOffset_ (this s)) (snd fed))
    as [[next|e]|] eqn:Hscan; [| |discriminate].
  2: { intros [= <- <-]. apply grows_refl. }
  destruct (fst fed) eqn:Hany; cbn [negb].
  2: { intros [= <- <-]. apply grows_refl. }
  specialize (Hfed eq_refl).
  apply (findNextDataPacketFrom_sound lock_wf) in Hscan.
  destruct (Z.ltb_spec next E57_UINT64_MAX) as [Hlt|Hge].
  - assert (Hnext : cur <= next).
    { destruct (nextDataPacket_found lock_wf _ _ _ Hscan next eq_refl) as [? _];
        lia. }
    unfold bind, dataPacket, lift.
    destruct (lock next) as [dpkt'|e]; [|intros [= <- <-]; apply grows_refl].
    intros Hrun. eapply forEachChannel_grows; [|exact Hrun].
    intros c h a c' h' r'. by apply advanceChannel_offset.
  - unfold bind, gets.
    destruct (next >=? sectionEndLogicalOffset_ (this s)).
    + intros Hrun. eapply forEachChannel_grows; [|exact Hrun].
      intros c h a c' h' r'. apply finishChannel_offset.
    + intros [= <- <-]. apply grows_refl.
Qed.

Lemma feedPacketToDecoders_grows (fuel : nat) (cur : Z) s r s' :
  feedPacketToDecoders fuel cur s = Some (r, s') ->
  grows (channels_ (this s)) (channels_ (this s')).
Proof.
  rewrite feedPacketToDecoders_unfold.
  destruct (lock cur) as [dpkt|e] eqn:Hlock; [|intros [= <- <-]; apply grows_refl].
  destruct (packetType (header dpkt) =? DATA_PACKET);
    [|intros [= <- <-]; apply grows_refl].
  unfold bind.
  destruct (forEachChannel_inv (feedChannel dpkt cur) (false, E57_UINT64_MAX) s)
    as (chans1 & h1 & r1 & Hloop & Hrun1).
  rewrite Hrun1.
  assert (Hfirst : grows (channels_ (this s)) chans1).
  { eapply (forChannels_related
              (fun c c' => currentPacketLogicalOffset c
                           <= currentPacketLogicalOffset c'));
      [intros; lia| |exact Hloop].
    intros c h a c' h' r'. apply feedChannel_offset. }
  destruct r1 as [fed|e]; [|intros [= <- <-]; exact Hfirst].
  intros Hafter. eapply grows_trans; [exact Hfirst|].
  change chans1 with
    (channels_ (this (mkState h1 (imf s) (setChannels chans1 (this s))))).
  destruct (lock_wf _ _ Hlock) as [Hcur _].
  eapply (afterFeeding_grows fuel cur fed); [|lia|exact Hafter].
  intros Hup. destruct (feedChannels_sentinel _ _ _ _ _ _ _ Hloop) as [_ Hnext].
  rewrite (Hnext Hup). destruct (skip_packet lock_wf _ _ Hlock) as [-> ?]. lia.
Qed.

Lemma pullLoop_grows (scanFuel fuel : nat) :
  forall s r s',
    pullLoop scanFuel fuel s = Some (r, s') ->
    grows (channels_ (this s)) (channels_ (this s')).
Proof.
  induction fuel as [|fuel IH]; intros s r s'; [discriminate|].
  rewrite pullLoop_step.
  destruct (_ =? E57_UINT64_MAX); [intros [= <- <-]; apply grows_refl|].
  unfold bind.
  destruct (feedPacketToDecoders scanFuel _ s) as [[[[]|e] s1]|] eqn:Hfeed;
    [| |discriminate].
  - intros Hrest. eapply grows_trans;
      [eapply feedPacketToDecoders_grows, Hfeed|eapply IH, Hrest].
  - intros [= <- <-]. eapply feedPacketToDecoders_grows, Hfeed.
Qed.

Lemma readUntilDone_grows (fuel : nat) s r s' :
  readUntilDone fuel s = Some (r, s') ->
  grows (channels_ (this s)) (channels_ (this s')).
Proof.
  unfold readUntilDone, checkImageFileOpen, checkReaderOpen.
  unfold bind, ret, throw, gets, modify.
  destruct (negb (isOpen_ (this s))); [intros [= <- <-]; apply grows_refl|].
  match goal with
  | |- context [forEachChannel drainChannel tt ?s0] =>
      destruct (forEachChannel drainChannel tt s0) as [[[[]|e] s1]|] eqn:Hdrain;
        [| |discriminate];
        apply (forEachChannel_grows drainChannel tt drainChannel_offset) in Hdrain
          as [Hdrain _]; cbn [this onHeap channels_] in Hdrain
  end.
  - intros Hloop. eapply grows_trans; [exact Hdrain|eapply pullLoop_grows, Hloop].
  - intros [= <- <-]. exact Hdrain.
Qed.

Lemma read_grows (fuel : nat) s r s' :
  read fuel s = Some (r, s') ->
  grows (channels_ (this s)) (channels_ (this s')).
Proof.
  rewrite read_unfold.
  destruct (readUntilDone fuel s) as [[[[]|e] s1]|] eqn:Hloop; [| |discriminate];
    intros [= <- <-]; eapply readUntilDone_grows, Hloop.
Qed.

Lemma setBuffers_channels (dbufs : list SourceDestBuffer) s r s' :
  setBuffers dbufs s = Some (r, s') ->
  channels_ (this s') = channels_ (this s).
Proof.
  rewrite setBuffers_unfold.
  destruct (checkBuffers _ _ true); [|by intros [= <- <-]].
  destruct (negb (bool_decide (dbufs_ (this s) = []))).
  - destruct (negb _); [by intros [= <- <-]|].
    destruct (checkCompatibleAll _ _ _); by intros [= <- <-].
  - by intros [= <- <-].
Qed.

Lemma readBuffers_grows (fuel : nat) (dbufs : list SourceDestBuffer) s r s' :
  readBuffers fuel dbufs s = Some (r, s') ->
  grows (channels_ (this s)) (channels_ (this s')).
Proof.
  unfold readBuffers, checkReaderOpen. unfold bind at 1 2 3, gets, throw, ret.
  destruct (negb (isOpen_ (this s))); [intros [= <- <-]; apply grows_refl|].
  destruct (setBuffers dbufs s) as [[[[]|e] s1]|] eqn:Hset; [| |discriminate].
  - intros Hread. apply read_grows in Hread.
    by rewrite (setBuffers_channels _ _ _ _ Hset) in Hread.
  - intros [= <- <-]. rewrite (setBuffers_channels _ _ _ _ Hset). apply grows_refl.
Qed.

Lemma call_grows (fuel : nat) (c : ReaderCall) s r s' :
  call fuel c s = Some (r, s') ->
  grows (channels_ (this s)) (channels_ (this s')).
Proof.
  destruct c as [|dbufs|n|]; cbn [call]; unfold bind, ret.
  - destruct (read fuel s) as [[[n|e] s1]|] eqn:Hread; [| |discriminate];
      intros [= <- <-]; eapply read_grows, Hread.
  - destruct (readBuffers fuel dbufs s) as [[[n|e] s1]|] eqn:Hread; [| |discriminate];
      intros [= <- <-]; eapply readBuffers_grows, Hread.
  - rewrite seek_throws. intros [= <- <-]. apply grows_refl.
  - unfold isOpen, gets. intros [= <- <-]. apply grows_refl.
Qed.

Lemma runCalls_grows (fuel : nat) (calls : list ReaderCall) :
  forall s s',
    runCalls fuel calls s = Some s' ->
    grows (channels_ (this s)) (channels_ (this s')).
Proof.
  induction calls as [|c rest IH]; intros s s'; cbn [runCalls].
  - intros [= <-]. apply grows_refl.
  - destruct (call fuel c s) as [[r s1]|] eqn:Hcall; [|discriminate].
    intros Hrest. eapply grows_trans; [eapply call_grows, Hcall|eapply IH, Hrest].
Qed.

End MonotoneFacts.

(** C6.  The [currentPacketLogicalOffset] of a channel never decreases:
    [feedPacketToDecoders], the only function that assigns it after the
    construction, leaves every channel at an offset that is at least the
    one it had, whether it returns or throws; so does every run of calls
    of [read()], [read( dbufs )], [seek()] and [isOpen()] on the reader.
    The packets are those of a file (see [lockWithinFile]). *)
Theorem currentPacketLogicalOffset_never_decreases `{Collaborators} :
  lockWithinFile ->
  (forall (fuel : nat) (cur : Z) (s : State) r (s' : State),
      feedPacketToDecoders fuel cur s = Some (r, s') ->
      Forall2 (fun c c' => currentPacketLogicalOffset c <= currentPacketLogicalOffset c')
              (channels_ (this s)) (channels_ (this s')))
  /\ (forall (fuel : nat) (calls : list ReaderCall) (s s' : State),
         runCalls fuel calls s = Some s' ->
         Forall2 (fun c c' => currentPacketLogicalOffset c <= currentPacketLogicalOffset c')
                 (channels_ (this s)) (channels_ (this s'))).
Proof.
  intros lock_wf. split.
  - intros fuel cur s r s'. by apply feedPacketToDecoders_grows.
  - intros fuel calls s s'. by apply runCalls_grows.
Qed.

Lemma currentPacketLogicalOffset_never_decreases_witness :
  @runCalls Fixture.collaborators 8 [CallRead; CallSeek 0; CallRead] (Fixture.opened true)
  = Some (Fixture.afterSecondRead true)
  /\ Forall2 (fun c c' => currentPacketLogicalOffset c <= currentPacketLogicalOffset c')
             (channels_ (this (Fixture.opened true)))
             (channels_ (this (Fixture.afterSecondRead true)))
  /\ map currentPacketLogicalOffset (channels_ (this (Fixture.opened true)))
     = [100; 100]
  /\ map currentPacketLogicalOffset (channels_ (this (Fixture.afterSecondRead true)))
     = [124; 124].
Proof.
  assert (Hrun : @runCalls Fixture.collaborators 8 [CallRead; CallSeek 0; CallRead]
                   (Fixture.opened true) = Some (Fixture.afterSecondRead true))
    by (vm_compute; reflexivity).
  split; [exact Hrun|]. split; [|split; reflexivity].
  exact (proj2 (@currentPacketLogicalOffset_never_decreases Fixture.collaborators
                  Fixture_lockWithinFile) 8%nat _ _ _ Hrun).
Defined.

(** ** Re-binding buffers in [read( dbufs )] *)

Section RebindFacts.

Context `{Collaborators}.

Lemma checkCompatible_spec (oldBuf newBuf : SourceDestBufferImpl) :
  (compatible oldBuf newBuf /\ checkCompatible oldBuf newBuf = Ok tt)
  \/ (~ compatible oldBuf newBuf
      /\ checkCompatible oldBuf newBuf = Throw E57_ERROR_BUFFERS_NOT_COMPATIBLE).
Proof.
  unfold checkCompatible, compatible.
  destruct (bool_decide_reflect (pathName oldBuf = pathName newBuf)); cbn [negb];
    [|right; split; [tauto|reflexivity]].
  destruct (bool_decide_reflect
              (memoryRepresentation oldBuf = memoryRepresentation newBuf));
    cbn [negb]; [|right; split; [tauto|reflexivity]].
  destruct (Z.eqb_spec (capacity oldBuf) (capacity newBuf)); cbn [negb];
    [|right; split; [tauto|reflexivity]].
  destruct (Z.eqb_spec (stride oldBuf) (stride newBuf)); cbn [negb];
    [|right; split; [tauto|reflexivity]].
  left. tauto.
Qed.

Lemma checkCompatibleAll_spec (h : Heap) :
  forall oldBufs newBufs,
    length oldBufs = length newBufs ->
    ((forall i oldBuf newBuf,
         oldBufs !! i = Some oldBuf -> newBufs !! i = Some newBuf ->
         compatible (impl h oldBuf) (impl h newBuf))
     /\ checkCompatibleAll h oldBufs newBufs = Ok tt)
    \/ ((exists i oldBuf newBuf,
            oldBufs !! i = Some oldBuf /\ newBufs !! i = Some newBuf
            /\ ~ compatible (impl h oldBuf) (impl h newBuf))
        /\ checkCompatibleAll h oldBufs newBufs
           = Throw E57_ERROR_BUFFERS_NOT_COMPATIBLE).
Proof.
  induction oldBufs as [|o olds IH]; intros [|n news] Hlen; try discriminate.
  - left. split; [intros i ? ? Hi; by destruct i|reflexivity].
  - cbn [checkCompatibleAll].
    destruct (checkCompatible_spec (impl h o) (impl h n)) as [[Hc ->]|[Hc ->]].
    + destruct (IH news ltac:(cbn in Hlen; lia))
        as [[Hall Hok]|[(i & ob & nb & Ho & Hn & Hbad) Hthrow]].
      * left. split; [|exact Hok].
        intros [|i] ob nb; cbn; [intros [= <-] [= <-]; exact Hc|apply Hall].
      * right. split; [|exact Hthrow]. exists (S i), ob, nb. auto.
    + right. split; [|reflexivity]. exists 0%nat, o, n. auto.
Qed.

Lemma readBuffers_unfold (fuel : nat) (dbufs : list SourceDestBuffer) (s : State) :
  isOpen_ (this s) = true ->
  readBuffers fuel dbufs s =
  match setBuffers dbufs s with
  | None => None
  | Some (Throw e, s1) => Some (Throw e, s1)
  | Some (Ok _, s1) => read fuel s1
  end.
Proof.
  intros Hopen. unfold readBuffers, checkReaderOpen.
  unfold bind at 1 2 3, gets, throw, ret. rewrite Hopen. cbn [negb].
  destruct (setBuffers dbufs s) as [[[[]|e] s1]|]; reflexivity.
Qed.

End RebindFacts.

(** C7.  [read( dbufs )] on an open reader with buffers bound runs
    [checkBuffers] on the new list (an error of [checkBuffers] is the
    error of the call).  When [checkBuffers] accepts the list: a list of
    another size than the bound one throws
    [E57_ERROR_BUFFERS_NOT_COMPATIBLE]; so does a list of which a buffer
    differs from the bound one at the same index in path,
    representation, capacity or stride; and a list whose buffers agree
    with the bound ones in these four attributes (the address of the
    memory is not one of them) becomes the bound list, with which [read()]
    then runs.  A call that throws leaves the state as it was. *)
Theorem read_rebinds_compatible_buffers `{Collaborators}
    (fuel : nat) (dbufs : list SourceDestBuffer) (s : State) :
  isOpen_ (this s) = true ->
  dbufs_ (this s) <> [] ->
  (forall e,
      checkBuffers (getPrototype (cVector_ (this s)))
                   (map (impl (heap s)) dbufs) true = Throw e ->
      readBuffers fuel dbufs s = Some (Throw e, s))
  /\ (checkBuffers (getPrototype (cVector_ (this s)))
                   (map (impl (heap s)) dbufs) true = Ok tt ->
      (length (dbufs_ (this s)) <> length dbufs ->
       readBuffers fuel dbufs s = Some (Throw E57_ERROR_BUFFERS_NOT_COMPATIBLE, s))
      /\ (length (dbufs_ (this s)) = length dbufs ->
          (exists i oldBuf newBuf,
              dbufs_ (this s) !! i = Some oldBuf /\ dbufs !! i = Some newBuf
              /\ ~ compatible (impl (heap s) oldBuf) (impl (heap s) newBuf)) ->
          readBuffers fuel dbufs s = Some (Throw E57_ERROR_BUFFERS_NOT_COMPATIBLE, s))
      /\ (length (dbufs_ (this s)) = length dbufs ->
          (forall i oldBuf newBuf,
              dbufs_ (this s) !! i = Some oldBuf -> dbufs !! i = Some newBuf ->
              compatible (impl (heap s) oldBuf) (impl (heap s) newBuf)) ->
          setBuffers dbufs s = Some (Ok tt, onThis (setDbufs dbufs) s)
          /\ dbufs_ (this (onThis (setDbufs dbufs) s)) = dbufs
          /\ readBuffers fuel dbufs s = read fuel (onThis (setDbufs dbufs) s))).
Proof.
  intros Hopen Hbound.
  rewrite (readBuffers_unfold fuel dbufs s Hopen), setBuffers_unfold.
  assert (Hne : negb (bool_decide (dbufs_ (this s) = [])) = true)
    by (by rewrite bool_decide_eq_false_2).
  split.
  - intros e ->. reflexivity.
  - intros ->. rewrite Hne. split; [|split].
    + intros Hlen. destruct (Nat.eqb_spec (length (dbufs_ (this s))) (length dbufs));
        [contradiction|reflexivity].
    + intros Hlen Hbad. rewrite Hlen, Nat.eqb_refl. cbn [negb].
      destruct (checkCompatibleAll_spec (heap s) _ _ Hlen)
        as [[Hall _]|[_ ->]]; [|reflexivity].
      destruct Hbad as (i & ob & nb & Ho & Hn & Hbad). destruct Hbad. eauto.
    + intros Hlen Hall. rewrite Hlen, Nat.eqb_refl. cbn [negb].
      destruct (checkCompatibleAll_spec (heap s) _ _ Hlen)
        as [[_ ->]|[(i & ob & nb & Ho & Hn & Hbad) _]];
        [split; [reflexivity|split; reflexivity]|].
      destruct Hbad. eauto.
Qed.

Lemma read_rebinds_compatible_buffers_witness :
  @setBuffers Fixture.collaborators [2%nat; 1%nat] (Fixture.afterFirstRead true)
  = Some (Ok tt, Fixture.rebound)
  /\ dbufs_ (this Fixture.rebound) = [2%nat; 1%nat]
  /\ base (impl (heap (Fixture.afterFirstRead true)) 0%nat)
     <> base (impl (heap (Fixture.afterFirstRead true)) 2%nat)
  /\ @readBuffers Fixture.collaborators 8 [2%nat; 1%nat] (Fixture.afterFirstRead true)
     = @read Fixture.collaborators 8 Fixture.rebound
  /\ @readBuffers Fixture.collaborators 8 [0%nat] (Fixture.afterFirstRead true)
     = Some (Throw E57_ERROR_BUFFERS_NOT_COMPATIBLE, Fixture.afterFirstRead true)
  /\ @readBuffers Fixture.collaborators 8 [0%nat; 3%nat] (Fixture.afterFirstRead true)
     = Some (Throw E57_ERROR_BUFFERS_NOT_COMPATIBLE, Fixture.afterFirstRead true).
Proof.
  assert (Hopen : isOpen_ (this (Fixture.afterFirstRead true)) = true) by reflexivity.
  assert (Hbound : dbufs_ (this (Fixture.afterFirstRead true)) <> []) by discriminate.
  destruct (@read_rebinds_compatible_buffers Fixture.collaborators 8 [2%nat; 1%nat]
              (Fixture.afterFirstRead true) Hopen Hbound) as [_ Hsame].
  destruct (Hsame ltac:(vm_compute; reflexivity)) as (_ & _ & Haccept).
  destruct Haccept as (Hset & Hnew & Hread); [reflexivity| |].
  { intros [|[|i]] ob nb; cbn; try discriminate; intros [= <-] [= <-];
      repeat split; reflexivity. }
  destruct (@read_rebinds_compatible_buffers Fixture.collaborators 8 [0%nat]
              (Fixture.afterFirstRead true) Hopen Hbound) as [_ Hshort].
  destruct (Hshort ltac:(vm_compute; reflexivity)) as (Hsize & _ & _).
  destruct (@read_rebinds_compatible_buffers Fixture.collaborators 8 [0%nat; 3%nat]
              (Fixture.afterFirstRead true) Hopen Hbound) as [_ Hother].
  destruct (Hother ltac:(vm_compute; reflexivity)) as (_ & Hclash & _).
  split; [exact Hset|]. split; [reflexivity|]. split; [vm_compute; discriminate|].
  split; [exact Hread|]. split; [apply Hsize; cbn; lia|].
  apply Hclash; [reflexivity|].
  exists 1%nat, 1%nat, 3%nat. split; [reflexivity|]. split; [reflexivity|].
  intros (_ & _ & Hcap & _). vm_compute in Hcap. discriminate.
Defined.

(** * Further properties of the reader *)

(** ** A closed reader, the destructor *)

Section ClosedFacts.

Context `{Collaborators}.

Lemma read_not_open (fuel : nat) (s : State) :
  isOpen_ (this s) = false ->
  read fuel s = Some (Throw E57_ERROR_READER_NOT_OPEN, s).
Proof.
  intros Hclosed. rewrite read_unfold.
  unfold readUntilDone, checkImageFileOpen, checkReaderOpen, bind, ret, gets, throw.
  by rewrite Hclosed.
Qed.

Lemma readBuffers_not_open (fuel : nat) (dbufs : list SourceDestBuffer) (s : State) :
  isOpen_ (this s) = false ->
  readBuffers fuel dbufs s = Some (Throw E57_ERROR_READER_NOT_OPEN, s).
Proof.
  intros Hclosed.
  unfold readBuffers, checkReaderOpen. unfold bind at 1 2 3, gets, throw, ret.
  by rewrite Hclosed.
Qed.

Lemma destructor_runs (s : State) :
  destructor s = Some (Ok tt, if isOpen_ (this s) then closed s else s).
Proof.
  unfold destructor. destruct (isOpen_ (this s)); [|reflexivity].
  by rewrite close_runs.
Qed.

End ClosedFacts.

(** X1.  A reader that is not open refuses to read: [read()] and
    [read( dbufs )], whatever the buffers, throw [E57_ERROR_READER_NOT_OPEN]
    and change nothing; this is what they do after [close()], after which
    [isOpen()] is false. *)
Theorem closed_reader_refuses_read `{Collaborators}
    (fuel : nat) (dbufs : list SourceDestBuffer) (s : State) :
  (isOpen_ (this s) = false ->
   read fuel s = Some (Throw E57_ERROR_READER_NOT_OPEN, s)
   /\ readBuffers fuel dbufs s = Some (Throw E57_ERROR_READER_NOT_OPEN, s))
  /\ bind close (fun _ => read fuel) s
     = Some (Throw E57_ERROR_READER_NOT_OPEN, closed s)
  /\ bind close (fun _ => readBuffers fuel dbufs) s
     = Some (Throw E57_ERROR_READER_NOT_OPEN, closed s)
  /\ bind close (fun _ => isOpen) s = Some (Ok false, closed s).
Proof.
  split; [|split; [|split]].
  - intros Hclosed. split; [by apply read_not_open|by apply readBuffers_not_open].
  - unfold bind. rewrite close_runs. apply read_not_open, closed_isOpen.
  - unfold bind. rewrite close_runs. apply readBuffers_not_open, closed_isOpen.
  - unfold bind. rewrite close_runs. unfold isOpen, gets. by rewrite closed_isOpen.
Qed.

Lemma closed_reader_refuses_read_witness :
  @read Fixture.collaborators 8 (@closed Fixture.collaborators (Fixture.opened true))
  = Some (Throw E57_ERROR_READER_NOT_OPEN,
          @closed Fixture.collaborators (Fixture.opened true))
  /\ @readBuffers Fixture.collaborators 8 [0%nat; 1%nat]
       (@closed Fixture.collaborators (Fixture.opened true))
     = Some (Throw E57_ERROR_READER_NOT_OPEN,
             @closed Fixture.collaborators (Fixture.opened true)).
Proof.
  apply (proj1 (@closed_reader_refuses_read Fixture.collaborators 8 [0%nat; 1%nat]
                  (@closed Fixture.collaborators (Fixture.opened true)))).
  reflexivity.
Defined.

(** X2.  The destructor never throws and leaves the reader closed; it
    takes one off the reader count of the image file when the reader was
    open and none when it was closed, in which case it changes nothing; a
    second run changes nothing either. *)
Theorem destructor_closes_once `{Collaborators} (s : State) :
  exists s',
    destructor s = Some (Ok tt, s')
    /\ isOpen_ (this s') = false
    /\ heap s' = heap s
    /\ readerCount_ (imf s')
       = readerCount_ (imf s) - (if isOpen_ (this s) then 1 else 0)
    /\ (isOpen_ (this s) = false -> s' = s)
    /\ destructor s' = Some (Ok tt, s').
Proof.
  exists (if isOpen_ (this s) then closed s else s).
  split; [apply destructor_runs|].
  destruct (isOpen_ (this s)) eqn:Hopen.
  - split; [apply closed_isOpen|]. split; [reflexivity|].
    split; [reflexivity|]. split; [discriminate|].
    by rewrite destructor_runs, closed_isOpen.
  - split; [exact Hopen|]. split; [reflexivity|]. split; [lia|].
    split; [reflexivity|]. by rewrite destructor_runs, Hopen.
Qed.

Lemma destructor_closes_once_witness :
  @destructor Fixture.collaborators (@closed Fixture.collaborators (Fixture.opened true))
  = Some (Ok tt, @closed Fixture.collaborators (Fixture.opened true))
  /\ readerCount_ (imf (@closed Fixture.collaborators (Fixture.opened true))) = 0.
Proof.
  destruct (@destructor_closes_once Fixture.collaborators
              (@closed Fixture.collaborators (Fixture.opened true)))
    as (s' & Hrun & _ & _ & _ & Hsame & _).
  rewrite (Hsame eq_refl) in Hrun. split; [exact Hrun|reflexivity].
Defined.

(** ** The selection does not depend on the order of the channels *)

Section EarliestOrder.

Context `{Collaborators}.

Lemma earliestStep_min (h : Heap) (e : Z) (c : DecodeChannel Decoder) :
  earliestStep h e c
  = if needsInput h c then Z.min e (currentPacketLogicalOffset c) else e.
Proof.
  unfold earliestStep. destruct (needsInput h c); [|reflexivity].
  destruct (Z.ltb_spec (currentPacketLogicalOffset c) e); lia.
Qed.

Lemma earliestStep_swap (h : Heap) (e : Z) (c1 c2 : DecodeChannel Decoder) :
  earliestStep h (earliestStep h e c1) c2 = earliestStep h (earliestStep h e c2) c1.
Proof.
  rewrite !earliestStep_min.
  destruct (needsInput h c1), (needsInput h c2); lia.
Qed.

Lemma earliest_fold_permutation (h : Heap) (l k : list (DecodeChannel Decoder)) :
  Permutation l k ->
  forall e, fold_left (earliestStep h) l e = fold_left (earliestStep h) k e.
Proof.
  induction 1 as [|c l k _ IH|c1 c2 l|l k m _ IH1 _ IH2]; intros e; cbn [fold_left].
  - reflexivity.
  - apply IH.
  - by rewrite earliestStep_swap.
  - by rewrite IH1.
Qed.

End EarliestOrder.

(** X3.  [earliestPacketNeededForInput] does not depend on the order in
    which the channels stand in [channels_]: on a permutation of the
    channels it returns the same offset. *)
Theorem earliestPacketNeededForInput_any_order `{Collaborators}
    (h : Heap) (chans chans' : list (DecodeChannel Decoder)) :
  Permutation chans chans' ->
  earliestPacketNeededForInput chans h = earliestPacketNeededForInput chans' h.
Proof.
  intros Hperm. unfold earliestPacketNeededForInput.
  by apply earliest_fold_permutation.
Qed.

Lemma earliestPacketNeededForInput_any_order_witness :
  @earliestPacketNeededForInput Fixture.collaborators
    [Fixture.channelAt 0%nat 0 124 0 2 false; Fixture.channelAt 1%nat 1 100 0 3 false]
    Fixture.buffers
  = @earliestPacketNeededForInput Fixture.collaborators
      [Fixture.channelAt 1%nat 1 100 0 3 false; Fixture.channelAt 0%nat 0 124 0 2 false]
      Fixture.buffers.
Proof.
  apply (@earliestPacketNeededForInput_any_order Fixture.collaborators).
  apply perm_swap.
Defined.

(** ** What the calls on an open reader keep *)

Section RelatedRuns.

Context `{Collaborators}.

(** Whatever the cache holds, an offset that the scan returns and that is
    not the sentinel is the offset of a data packet before the end of the
    section. *)
Lemma findNextDataPacketFrom_data (fuel : nat) :
  forall sectionEnd start off,
    findNextDataPacketFrom fuel sectionEnd start = Some (Ok off) ->
    off = E57_UINT64_MAX
    \/ (off < sectionEnd
        /\ exists pkt, lock off = Ok pkt /\ packetType (header pkt) = DATA_PACKET).
Proof.
  induction fuel as [|fuel IH]; intros sectionEnd start off; cbn; [discriminate|].
  destruct (Z.ltb_spec start sectionEnd) as [Hlt|Hge]; [|intros [= <-]; by left].
  destruct (lock start) as [pkt|e] eqn:Hlock; [|discriminate].
  destruct (Z.eqb_spec (packetType (header pkt)) DATA_PACKET) as [Hdata|Hother].
  - intros [= <-]. right. split; [exact Hlt|eauto].
  - apply IH.
Qed.

Variable R : DecodeChannel Decoder -> DecodeChannel Decoder -> Prop.
Hypothesis R_refl : forall c, R c c.
Hypothesis R_trans : forall a b c, R a b -> R b c -> R a c.

Local Abbreviation related :=
  (fun s s' : State =>
     sameReaderObject s s' /\ Forall2 R (channels_ (this s)) (channels_ (this s'))).

Lemma sameReaderObject_refl (s : State) : sameReaderObject s s.
Proof. repeat split. Qed.

Lemma sameReaderObject_trans (s1 s2 s3 : State) :
  sameReaderObject s1 s2 -> sameReaderObject s2 s3 -> sameReaderObject s1 s3.
Proof.
  unfold sameReaderObject. intros (?&?&?&?&?&?&?) (?&?&?&?&?&?&?).
  repeat split; congruence.
Qed.

Lemma related_refl (s : State) : related s s.
Proof.
  split; [apply sameReaderObject_refl|].
  induction (channels_ (this s)); constructor; auto.
Qed.

Lemma related_trans (s1 s2 s3 : State) :
  related s1 s2 -> related s2 s3 -> related s1 s3.
Proof.
  intros [Ho1 Hc1] [Ho2 Hc2]. split; [by eapply sameReaderObject_trans|].
  eapply Forall2_trans; [|exact Hc1|exact Hc2]. intros x y z. apply R_trans.
Qed.

Lemma forEachChannel_keeps {Acc : Type}
    (body : DecodeChannel Decoder -> Heap -> Acc
            -> (DecodeChannel Decoder * Heap) * result Acc) (a : Acc) :
  (forall c h a c' h' r, body c h a = ((c', h'), r) -> R c c') ->
  forall s r s', forEachChannel body a s = Some (r, s') -> related s s'.
Proof.
  intros Hbody s r s' Hrun.
  destruct (forEachChannel_inv body a s) as (chans' & h' & r' & Hloop & Hrun').
  rewrite Hrun' in Hrun. injection Hrun as <- <-.
  split; [repeat split|]. cbn [this setChannels channels_].
  eapply forChannels_related; [exact R_refl|exact Hbody|exact Hloop].
Qed.

Section OnePacket.

Variable cur : Z.

Hypothesis R_feed :
  forall dpkt c h (a : bool * Z) c' h' r,
    lock cur = Ok dpkt -> packetType (header dpkt) = DATA_PACKET ->
    feedChannel dpkt cur c h a = ((c', h'), r) -> R c c'.
Hypothesis R_advance :
  forall dpkt next c h (a : unit) c' h' r,
    lock next = Ok dpkt -> packetType (header dpkt) = DATA_PACKET ->
    advanceChannel dpkt cur next c h a = ((c', h'), r) -> R c c'.
Hypothesis R_finish :
  forall c h (a : unit) c' h' r,
    finishChannel cur c h a = ((c', h'), r) -> R c c'.

Lemma afterFeeding_keeps (fuel : nat) (fed : bool * Z) s r s' :
  afterFeeding fuel cur fed s = Some (r, s') -> related s s'.
Proof.
  unfold afterFeeding. unfold bind at 1. unfold findNextDataPacket.
  destruct (findNextDataPacketFrom fuel (sectionEndLogicalOffset_ (this s)) (snd fed))
    as [[next|e]|] eqn:Hscan; [| |discriminate].
  2: { intros [= <- <-]. apply related_refl. }
  destruct (fst fed); cbn [negb].
  2: { intros [= <- <-]. apply related_refl. }
  destruct (Z.ltb_spec next E57_UINT64_MAX) as [Hlt|Hge].
  - unfold bind, dataPacket, lift.
    destruct (lock next) as [dpkt'|e] eqn:Hlock;
      [|intros [= <- <-]; apply related_refl].
    apply findNextDataPacketFrom_data in Hscan as [->|(_ & pkt & Hpkt & Hdata)]; [lia|].
    assert (pkt = dpkt') as -> by congruence.
    apply forEachChannel_keeps. intros c h a c' h' r'. by apply R_advance.
  - unfold bind, gets.
    destruct (next >=? sectionEndLogicalOffset_ (this s)).
    + apply forEachChannel_keeps. exact R_finish.
    + intros [= <- <-]. apply related_refl.
Qed.

Lemma feedPacketToDecoders_keeps (fuel : nat) s r s' :
  feedPacketToDecoders fuel cur s = Some (r, s') -> related s s'.
Proof.
  rewrite feedPacketToDecoders_unfold.
  destruct (lock cur) as [dpkt|e] eqn:Hlock; [|intros [= <- <-]; apply related_refl].
  destruct (Z.eqb_spec (packetType (header dpkt)) DATA_PACKET) as [Hdata|_];
    [|intros [= <- <-]; apply related_refl].
  unfold bind.
  destruct (forEachChannel (feedChannel dpkt cur) (false, E57_UINT64_MAX) s)
    as [[[fed|e] s1]|] eqn:Hfirst; [| |discriminate].
  - intros Hafter. eapply related_trans; [|eapply afterFeeding_keeps, Hafter].
    eapply forEachChannel_keeps; [|exact Hfirst].
    intros c h a c' h' r'. by apply R_feed.
  - intros [= <- <-]. eapply forEachChannel_keeps; [|exact Hfirst].
    intros c h a c' h' r'. by apply R_feed.
Qed.

End OnePacket.

Hypothesis R_feed :
  forall cur dpkt c h (a : bool * Z) c' h' r,
    lock cur = Ok dpkt -> packetType (header dpkt) = DATA_PACKET ->
    feedChannel dpkt cur c h a = ((c', h'), r) -> R c c'.
Hypothesis R_advance :
  forall cur dpkt next c h (a : unit) c' h' r,
    lock next = Ok dpkt -> packetType (header dpkt) = DATA_PACKET ->
    advanceChannel dpkt cur next c h a = ((c', h'), r) -> R c c'.
Hypothesis R_finish :
  forall cur c h (a : unit) c' h' r,
    finishChannel cur c h a = ((c', h'), r) -> R c c'.
Hypothesis R_drain :
  forall c h (a : unit) c' h' r, drainChannel c h a = ((c', h'), r) -> R c c'.

Lemma pullLoop_keeps (scanFuel fuel : nat) :
  forall s r s', pullLoop scanFuel fuel s = Some (r, s') -> related s s'.
Proof.
  induction fuel as [|fuel IH]; intros s r s'; [discriminate|].
  rewrite pullLoop_step.
  destruct (_ =? E57_UINT64_MAX); [intros [= <- <-]; apply related_refl|].
  unfold bind.
  destruct (feedPacketToDecoders scanFuel _ s) as [[[[]|e] s1]|] eqn:Hfeed;
    [| |discriminate].
  - intros Hrest. eapply related_trans; [|eapply IH, Hrest].
    eapply feedPacketToDecoders_keeps; [apply R_feed|apply R_advance|apply R_finish|].
    exact Hfeed.
  - intros [= <- <-].
    eapply feedPacketToDecoders_keeps; [apply R_feed|apply R_advance|apply R_finish|].
    exact Hfeed.
Qed.

Lemma readUntilDone_keeps (fuel : nat) s r s' :
  readUntilDone fuel s = Some (r, s') -> related s s'.
Proof.
  unfold readUntilDone, checkImageFileOpen, checkReaderOpen.
  unfold bind, ret, throw, gets, modify.
  destruct (negb (isOpen_ (this s))); [intros [= <- <-]; apply related_refl|].
  match goal with
  | |- context [forEachChannel drainChannel tt ?s0] =>
      destruct (forEachChannel drainChannel tt s0) as [[[[]|e] s1]|] eqn:Hdrain;
        [| |discriminate];
        apply (forEachChannel_keeps drainChannel tt R_drain) in Hdrain
  end.
  - intros Hloop. eapply related_trans; [exact Hdrain|eapply pullLoop_keeps, Hloop].
  - intros [= <- <-]. exact Hdrain.
Qed.

Lemma read_keeps (fuel : nat) s r s' :
  read fuel s = Some (r, s') -> related s s'.
Proof.
  rewrite read_unfold.
  destruct (readUntilDone fuel s) as [[[[]|e] s1]|] eqn:Hloop; [| |discriminate];
    intros [= <- <-]; eapply readUntilDone_keeps, Hloop.
Qed.

Lemma setBuffers_keeps (dbufs : list SourceDestBuffer) s r s' :
  setBuffers dbufs s = Some (r, s') ->
  related s s' /\ heap s' = heap s.
Proof.
  rewrite setBuffers_unfold.
  destruct (checkBuffers _ _ true);
    [|intros [= <- <-]; split; [apply related_refl|reflexivity]].
  assert (Hset : related s (onThis (setDbufs dbufs) s)
                 /\ heap (onThis (setDbufs dbufs) s) = heap s).
  { split; [|reflexivity]. split; [repeat split|].
    cbn. induction (channels_ (this s)); constructor; auto. }
  destruct (negb (bool_decide (dbufs_ (this s) = []))).
  - destruct (negb _);
      [intros [= <- <-]; split; [apply related_refl|reflexivity]|].
    destruct (checkCompatibleAll _ _ _); intros [= <- <-];
      [exact Hset|split; [apply related_refl|reflexivity]].
  - intros [= <- <-]. exact Hset.
Qed.

Lemma readBuffers_keeps (fuel : nat) (dbufs : list SourceDestBuffer) s r s' :
  readBuffers fuel dbufs s = Some (r, s') -> related s s'.
Proof.
  unfold readBuffers, checkReaderOpen. unfold bind at 1 2 3, gets, throw, ret.
  destruct (negb (isOpen_ (this s))); [intros [= <- <-]; apply related_refl|].
  destruct (setBuffers dbufs s) as [[[[]|e] s1]|] eqn:Hset; [| |discriminate];
    apply setBuffers_keeps in Hset as [Hset _].
  - intros Hread. eapply related_trans; [exact Hset|eapply read_keeps, Hread].
  - intros [= <- <-]. exact Hset.
Qed.

Lemma call_keeps (fuel : nat) (c : ReaderCall) s r s' :
  call fuel c s = Some (r, s') -> related s s'.
Proof.
  destruct c as [|dbufs|n|]; cbn [call]; unfold bind, ret.
  - destruct (read fuel s) as [[[n|e] s1]|] eqn:Hread; [| |discriminate];
      intros [= <- <-]; eapply read_keeps, Hread.
  - destruct (readBuffers fuel dbufs s) as [[[n|e] s1]|] eqn:Hread; [| |discriminate];
      intros [= <- <-]; eapply readBuffers_keeps, Hread.
  - rewrite seek_throws. intros [= <- <-]. apply related_refl.
  - unfold isOpen, gets. intros [= <- <-]. apply related_refl.
Qed.

Lemma runCalls_keeps (fuel : nat) (calls : list ReaderCall) :
  forall s s', runCalls fuel calls s = Some s' -> related s s'.
Proof.
  induction calls as [|c rest IH]; intros s s'; cbn [runCalls].
  - intros [= <-]. apply related_refl.
  - destruct (call fuel c s) as [[r s1]|] eqn:Hcall; [|discriminate].
    intros Hrest. eapply related_trans; [eapply call_keeps, Hcall|eapply IH, Hrest].
Qed.

End RelatedRuns.

Section ChannelSteps.

Context `{Collaborators}.

(** What the bodies of the loops leave of a channel. *)
Lemma feedChannel_keeps (dpkt : DataPacket) (cur : Z) c h (a : bool * Z) c' h' r :
  feedChannel dpkt cur c h a = ((c', h'), r) ->
  sameBinding c c' /\ packetPosition c' = packetPosition c
  /\ (currentPacketLogicalOffset c <> cur -> c' = c).
Proof.
  unfold feedChannel, _alreadyReadPacket.
  destruct (Z.eqb_spec (currentPacketLogicalOffset c) cur) as [Hat|Hother];
    cbn [negb orb]; [|intros [= <- <- <-]; by repeat split].
  destruct (isOutputBlocked c h); [intros [= <- <- <-]; by repeat split|].
  destruct (getBytestream dpkt (bytestreamNumber c)) as [bsb|e];
    [|intros [= <- <- <-]; by repeat split].
  destruct (_ >? _); [intros [= <- <- <-]; by repeat split|].
  destruct (_ >? _); [intros [= <- <- <-]; by repeat split|].
  destruct (inputProcess _ _ h) as [h1 [[d' n]|e]];
    [|intros [= <- <- <-]; by repeat split].
  destruct (isInputBlocked _); intros [= <- <- <-]; by repeat split.
Qed.

Lemma advanceChannel_keeps (dpkt : DataPacket) (cur next : Z) c h (a : unit) c' h' r :
  advanceChannel dpkt cur next c h a = ((c', h'), r) ->
  sameBinding c c' /\ inputFinished c' = inputFinished c
  /\ (currentPacketLogicalOffset c <> cur -> c' = c)
  /\ (c' = c \/ currentPacketLogicalOffset c' = next).
Proof.
  unfold advanceChannel, _alreadyReadPacket.
  destruct (Z.eqb_spec (currentPacketLogicalOffset c) cur) as [Hat|Hother];
    cbn [negb orb]; [|intros [= <- <- <-]; repeat split; auto].
  destruct (isOutputBlocked c h); [intros [= <- <- <-]; repeat split; auto|].
  destruct (getBytestreamBufferLength dpkt (bytestreamNumber c));
    intros [= <- <- <-]; repeat split; auto; contradiction.
Qed.

Lemma finishChannel_keeps (cur : Z) c h (a : unit) c' h' r :
  finishChannel cur c h a = ((c', h'), r) ->
  sameBinding c c'
  /\ currentPacketLogicalOffset c' = currentPacketLogicalOffset c
  /\ (inputFinished c = true -> inputFinished c' = true)
  /\ (currentPacketLogicalOffset c <> cur -> c' = c).
Proof.
  unfold finishChannel, _alreadyReadPacket.
  destruct (Z.eqb_spec (currentPacketLogicalOffset c) cur) as [Hat|Hother];
    cbn [negb orb]; [|intros [= <- <- <-]; repeat split; auto].
  destruct (isOutputBlocked c h); intros [= <- <- <-]; repeat split; auto;
    contradiction.
Qed.

Lemma drainChannel_keeps c h (a : unit) c' h' r :
  drainChannel c h a = ((c', h'), r) ->
  sameBinding c c' /\ packetPosition c' = packetPosition c.
Proof.
  unfold drainChannel. destruct (inputProcess (decoder c) None h) as [h1 [[d n]|e]];
    intros [= <- <- <-]; by repeat split.
Qed.

Lemma packetPosition_finished (c c' : DecodeChannel Decoder) :
  packetPosition c' = packetPosition c -> inputFinished c' = inputFinished c.
Proof. unfold packetPosition. by intros [= _ _ ->]. Qed.

Lemma packetPosition_offset (c c' : DecodeChannel Decoder) :
  packetPosition c' = packetPosition c ->
  currentPacketLogicalOffset c' = currentPacketLogicalOffset c.
Proof. unfold packetPosition. by intros [= -> _ _]. Qed.

Lemma Forall2_Forall_step {A : Type} (P : A -> Prop) (l k : list A) :
  Forall2 (fun x y => P x -> P y) l k -> Forall P l -> Forall P k.
Proof.
  induction 1 as [|x y l k Hxy _ IH]; [constructor|].
  intros Hall. apply Forall_cons in Hall as [Hx Hl]. constructor; auto.
Qed.

End ChannelSteps.

(** X4.  [feedPacketToDecoders( offset )] leaves alone every channel that
    is at another packet than the one it feeds: such a channel, with its
    decoder, is as it was, whether the function returns or throws.  The
    image file and the other members of the reader are as they were. *)
Theorem feedPacketToDecoders_leaves_other_channels `{Collaborators}
    (fuel : nat) (cur : Z) (s : State) r (s' : State) :
  feedPacketToDecoders fuel cur s = Some (r, s') ->
  Forall2 (fun c c' => currentPacketLogicalOffset c <> cur -> c' = c)
          (channels_ (this s)) (channels_ (this s'))
  /\ imf s' = imf s
  /\ isOpen_ (this s') = isOpen_ (this s)
  /\ sectionEndLogicalOffset_ (this s') = sectionEndLogicalOffset_ (this s).
Proof.
  intros Hrun.
  destruct (feedPacketToDecoders_keeps (untouchedUnlessAt cur)) with
    (cur := cur) (fuel := fuel) (s := s) (r := r) (s' := s')
    as [(Himf & Hopen & _ & _ & _ & _ & Hend) Hchans]; try exact Hrun.
  - intros c _. reflexivity.
  - intros a b c Hab Hbc Ha. rewrite (Hbc ltac:(by rewrite (Hab Ha))). by apply Hab.
  - intros dpkt c h a c' h' r' _ _ Hstep.
    by destruct (feedChannel_keeps _ _ _ _ _ _ _ _ Hstep) as (_ & _ & ?).
  - intros dpkt next c h a c' h' r' _ _ Hstep.
    by destruct (advanceChannel_keeps _ _ _ _ _ _ _ _ _ Hstep) as (_ & _ & ? & _).
  - intros c h a c' h' r' Hstep.
    by destruct (finishChannel_keeps _ _ _ _ _ _ _ Hstep) as (_ & _ & _ & ?).
  - repeat split; assumption.
Qed.

Lemma feedPacketToDecoders_leaves_other_channels_witness :
  @feedPacketToDecoders Fixture.collaborators 8 100 Fixture.unevenRewound
  = Some (Ok tt, Fixture.unevenAdvanced)
  /\ Forall2 (fun c c' => currentPacketLogicalOffset c <> 100 -> c' = c)
             (channels_ (this Fixture.unevenRewound))
             (channels_ (this Fixture.unevenAdvanced))
  /\ map currentPacketLogicalOffset (channels_ (this Fixture.unevenRewound))
     = [124; 100]
  /\ map currentPacketLogicalOffset (channels_ (this Fixture.unevenAdvanced))
     = [124; 124].
Proof.
  assert (Hrun : @feedPacketToDecoders Fixture.collaborators 8 100 Fixture.unevenRewound
                 = Some (Ok tt, Fixture.unevenAdvanced))
    by (vm_compute; reflexivity).
  split; [exact Hrun|]. split; [|split; reflexivity].
  exact (proj1 (@feedPacketToDecoders_leaves_other_channels Fixture.collaborators
                  8 100 _ _ _ Hrun)).
Defined.

(** X5.  No call on a reader re-binds a channel: over every run of
    [read()], [read( dbufs )], [seek()] and [isOpen()], each channel keeps
    its buffer handle, its bytestream number and its record limit, and the
    number of channels stays.  In particular [read( dbufs )] replaces
    [dbufs_] only; the channels go on with the buffers of the
    construction. *)
Theorem channels_keep_their_buffers `{Collaborators}
    (fuel : nat) (calls : list ReaderCall) (s s' : State) :
  runCalls fuel calls s = Some s' ->
  Forall2 (fun c c' => dbuf c' = dbuf c
                       /\ bytestreamNumber c' = bytestreamNumber c
                       /\ maxRecordCount c' = maxRecordCount c)
          (channels_ (this s)) (channels_ (this s'))
  /\ map dbuf (channels_ (this s')) = map dbuf (channels_ (this s))
  /\ length (channels_ (this s')) = length (channels_ (this s)).
Proof.
  intros Hrun.
  assert (Hkeep : Forall2 sameBinding (channels_ (this s)) (channels_ (this s'))).
  { refine (proj2 (runCalls_keeps sameBinding _ _ _ _ _ _ fuel calls s s' Hrun)).
    - intros c. by repeat split.
    - intros a b c (?&?&?) (?&?&?). repeat split; congruence.
    - intros cur dpkt c h a c' h' r _ _ Hstep.
      by destruct (feedChannel_keeps _ _ _ _ _ _ _ _ Hstep) as (? & _).
    - intros cur dpkt next c h a c' h' r _ _ Hstep.
      by destruct (advanceChannel_keeps _ _ _ _ _ _ _ _ _ Hstep) as (? & _).
    - intros cur c h a c' h' r Hstep.
      by destruct (finishChannel_keeps _ _ _ _ _ _ _ Hstep) as (? & _).
    - intros c h a c' h' r Hstep.
      by destruct (drainChannel_keeps _ _ _ _ _ _ Hstep) as (? & _). }
  split; [exact Hkeep|]. split.
  - apply Forall2_same_image. eapply Forall2_impl; [exact Hkeep|].
    intros c c' (Hd & _). by symmetry.
  - symmetry. eapply Forall2_length, Hkeep.
Qed.

Lemma channels_keep_their_buffers_witness :
  @runCalls Fixture.collaborators 8 [CallReadBuffers [2%nat; 1%nat]]
    (Fixture.afterFirstRead true) = Some Fixture.afterReboundRead
  /\ dbufs_ (this Fixture.afterReboundRead) = [2%nat; 1%nat]
  /\ map dbuf (channels_ (this Fixture.afterReboundRead)) = [0%nat; 1%nat]
  /\ map dbuf (channels_ (this Fixture.afterReboundRead))
     = map dbuf (channels_ (this (Fixture.afterFirstRead true))).
Proof.
  assert (Hrun : @runCalls Fixture.collaborators 8 [CallReadBuffers [2%nat; 1%nat]]
                   (Fixture.afterFirstRead true) = Some Fixture.afterReboundRead)
    by (vm_compute; reflexivity).
  split; [exact Hrun|]. split; [reflexivity|]. split; [reflexivity|].
  exact (proj1 (proj2 (@channels_keep_their_buffers Fixture.collaborators
                         8 _ _ _ Hrun))).
Defined.

(** X6.  [inputFinished] is sticky: over every run of calls on a reader, a
    channel that is finished stays finished. *)
Theorem inputFinished_is_sticky `{Collaborators}
    (fuel : nat) (calls : list ReaderCall) (s s' : State) :
  runCalls fuel calls s = Some s' ->
  Forall2 (fun c c' => inputFinished c = true -> inputFinished c' = true)
          (channels_ (this s)) (channels_ (this s')).
Proof.
  intros Hrun.
  refine (proj2 (runCalls_keeps staysFinished _ _ _ _ _ _ fuel calls s s' Hrun)).
  - intros c. by unfold staysFinished.
  - intros a b c Hab Hbc Ha. by apply Hbc, Hab.
  - intros cur dpkt c h a c' h' r _ _ Hstep Hfin.
    destruct (feedChannel_keeps _ _ _ _ _ _ _ _ Hstep) as (_ & Hpos & _).
    by rewrite (packetPosition_finished _ _ Hpos).
  - intros cur dpkt next c h a c' h' r _ _ Hstep Hfin.
    destruct (advanceChannel_keeps _ _ _ _ _ _ _ _ _ Hstep) as (_ & Hsame & _).
    by rewrite Hsame.
  - intros cur c h a c' h' r Hstep.
    by destruct (finishChannel_keeps _ _ _ _ _ _ _ Hstep) as (_ & _ & ? & _).
  - intros c h a c' h' r Hstep Hfin.
    destruct (drainChannel_keeps _ _ _ _ _ _ Hstep) as (_ & Hpos).
    by rewrite (packetPosition_finished _ _ Hpos).
Qed.

Lemma inputFinished_is_sticky_witness :
  @runCalls Fixture.collaborators 8 [CallRead; CallSeek 7; CallRead]
    (Fixture.afterSecondRead true) = Some (Fixture.afterThirdRead true)
  /\ map inputFinished (channels_ (this (Fixture.afterSecondRead true))) = [true; true]
  /\ Forall2 (fun c c' => inputFinished c = true -> inputFinished c' = true)
             (channels_ (this (Fixture.afterSecondRead true)))
             (channels_ (this (Fixture.afterThirdRead true))).
Proof.
  assert (Hrun : @runCalls Fixture.collaborators 8 [CallRead; CallSeek 7; CallRead]
                   (Fixture.afterSecondRead true) = Some (Fixture.afterThirdRead true))
    by (vm_compute; reflexivity).
  split; [exact Hrun|]. split; [reflexivity|].
  exact (@inputFinished_is_sticky Fixture.collaborators 8 _ _ _ Hrun).
Defined.

(** X7.  No call on a reader but [close()] touches the image file or
    closes the reader: over every run of [read()], [read( dbufs )],
    [seek()] and [isOpen()], also when calls throw, the reader count and
    the open flag of the file, [isOpen_], the cache, the record counts and
    the end of the section are what they were; a reader that was open is
    open after a [read()] that has thrown. *)
Theorem calls_leave_reader_open `{Collaborators}
    (fuel : nat) (calls : list ReaderCall) (s s' : State) :
  runCalls fuel calls s = Some s' ->
  imf s' = imf s
  /\ isOpen_ (this s') = isOpen_ (this s)
  /\ cVector_ (this s') = cVector_ (this s)
  /\ cache_ (this s') = cache_ (this s)
  /\ recordCount_ (this s') = recordCount_ (this s)
  /\ maxRecordCount_ (this s') = maxRecordCount_ (this s)
  /\ sectionEndLogicalOffset_ (this s') = sectionEndLogicalOffset_ (this s).
Proof.
  intros Hrun.
  refine (proj1 (runCalls_keeps (fun _ _ => True) _ _ _ _ _ _ fuel calls s s' Hrun));
    auto.
Qed.

Lemma calls_leave_reader_open_witness :
  @readBuffers Fixture.collaborators 8 [2%nat; 1%nat] (Fixture.afterFirstRead true)
  = Some (Throw E57_ERROR_INTERNAL, Fixture.afterReboundRead)
  /\ isOpen_ (this Fixture.afterReboundRead) = true
  /\ imf Fixture.afterReboundRead = imf (Fixture.afterFirstRead true).
Proof.
  assert (Hrun : @runCalls Fixture.collaborators 8 [CallReadBuffers [2%nat; 1%nat]]
                   (Fixture.afterFirstRead true) = Some Fixture.afterReboundRead)
    by (vm_compute; reflexivity).
  destruct (@calls_leave_reader_open Fixture.collaborators 8 _ _ _ Hrun)
    as (Himf & Hopen & _).
  split; [vm_compute; reflexivity|]. split; [exact Hopen|exact Himf].
Defined.

Section DataPacketFacts.

Context `{Collaborators}.

Lemma runCalls_atDataPacket (fuel : nat) (calls : list ReaderCall) (s s' : State) :
  runCalls fuel calls s = Some s' ->
  Forall atDataPacket (channels_ (this s)) ->
  Forall atDataPacket (channels_ (this s')).
Proof.
  intros Hrun. apply Forall2_Forall_step.
  refine (proj2 (runCalls_keeps (fun c c' => atDataPacket c -> atDataPacket c')
                   _ _ _ _ _ _ fuel calls s s' Hrun)).
  - auto.
  - auto.
  - intros cur dpkt c h a c' h' r _ _ Hstep.
    destruct (feedChannel_keeps _ _ _ _ _ _ _ _ Hstep) as (_ & Hpos & _).
    unfold atDataPacket. by rewrite (packetPosition_offset _ _ Hpos).
  - intros cur dpkt next c h a c' h' r Hlock Hdata Hstep Hat.
    destruct (advanceChannel_keeps _ _ _ _ _ _ _ _ _ Hstep)
      as (_ & _ & _ & [->| Hnext]); [exact Hat|].
    unfold atDataPacket. rewrite Hnext. eauto.
  - intros cur c h a c' h' r Hstep.
    destruct (finishChannel_keeps _ _ _ _ _ _ _ Hstep) as (_ & Hoff & _).
    unfold atDataPacket. by rewrite Hoff.
  - intros c h a c' h' r Hstep.
    destruct (drainChannel_keeps _ _ _ _ _ _ Hstep) as (_ & Hpos).
    unfold atDataPacket. by rewrite (packetPosition_offset _ _ Hpos).
Qed.

End DataPacketFacts.

(** X8.  Once every channel is at a data packet that the cache returns (as
    after the construction), this holds after every run of calls, and the
    packet that the loop of [read()] selects to feed is such a data packet:
    the test of the packet type at the head of [feedPacketToDecoders] does
    not fail on it. *)
Theorem channels_stay_at_data_packets `{Collaborators}
    (fuel : nat) (calls : list ReaderCall) (s s' : State) :
  Forall (fun c => exists pkt, lock (currentPacketLogicalOffset c) = Ok pkt
                               /\ packetType (header pkt) = DATA_PACKET)
         (channels_ (this s)) ->
  runCalls fuel calls s = Some s' ->
  Forall (fun c => exists pkt, lock (currentPacketLogicalOffset c) = Ok pkt
                               /\ packetType (header pkt) = DATA_PACKET)
         (channels_ (this s'))
  /\ (earliestPacketNeededForInput (channels_ (this s')) (heap s') <> E57_UINT64_MAX ->
      exists pkt,
        lock (earliestPacketNeededForInput (channels_ (this s')) (heap s')) = Ok pkt
        /\ packetType (header pkt) = DATA_PACKET).
Proof.
  intros Hat Hrun.
  pose proof (runCalls_atDataPacket fuel calls s s' Hrun Hat) as Hat'.
  split; [exact Hat'|]. intros Hne.
  destruct (earliest_fold (heap s') (channels_ (this s')) E57_UINT64_MAX)
    as (_ & _ & [Heq|(chan & Hin & _ & Hoff)]); [contradiction|].
  change (fold_left (earliestStep (heap s')) (channels_ (this s')) E57_UINT64_MAX)
    with (earliestPacketNeededForInput (channels_ (this s')) (heap s')) in Hoff.
  rewrite <- Hoff. rewrite Forall_forall in Hat'.
  apply Hat'. by apply list_elem_of_In.
Qed.

Lemma channels_stay_at_data_packets_witness :
  @runCalls Fixture.collaborators 8 [CallRead] (Fixture.opened true)
  = Some (Fixture.afterFirstRead true)
  /\ Forall (fun c => exists pkt,
                 @lock Fixture.collaborators (currentPacketLogicalOffset c) = Ok pkt
                 /\ packetType (header pkt) = DATA_PACKET)
            (channels_ (this (Fixture.afterFirstRead true))).
Proof.
  assert (Hrun : @runCalls Fixture.collaborators 8 [CallRead] (Fixture.opened true)
                 = Some (Fixture.afterFirstRead true))
    by (vm_compute; reflexivity).
  split; [exact Hrun|].
  refine (proj1 (@channels_stay_at_data_packets Fixture.collaborators 8 [CallRead]
                   (Fixture.opened true) (Fixture.afterFirstRead true) _ Hrun)).
  repeat constructor;
    exists (Fixture.dataPacketOf 15 [[Byte.x01; Byte.x02; Byte.x03];
                                     [Byte.x04; Byte.x05; Byte.x06]]);
    (split; [vm_compute; reflexivity|reflexivity]).
Defined.

(** ** The constructor *)

Section ConstructFacts.

Context `{Collaborators}.
Local Open Scope reader_scope.

(** A loop that has run to its end has visited every channel. *)
Lemma forChannels_completed {Acc : Type}
    (R : DecodeChannel Decoder -> DecodeChannel Decoder -> Prop)
    (body : DecodeChannel Decoder -> Heap -> Acc
            -> (DecodeChannel Decoder * Heap) * result Acc) :
  (forall c h a c' h' a', body c h a = ((c', h'), Ok a') -> R c c') ->
  forall chans h a chans' h' a',
    forChannels body chans h a = ((chans', h'), Ok a') ->
    Forall2 R chans chans'.
Proof.
  intros Hbody. induction chans as [|c rest IH]; intros h a chans' h' a'; cbn.
  - intros [= <- <- <-]. constructor.
  - destruct (body c h a) as [[c1 h1] [a1|e]] eqn:Hstep; [|discriminate].
    destruct (forChannels body rest h1 a1) as [[rest1 h2] r1] eqn:Hrest.
    intros [= <- <- ->]. constructor; [eapply Hbody, Hstep|eapply IH, Hrest].
Qed.

(** A loop whose body leaves the heap alone leaves the heap alone. *)
Lemma forChannels_heap {Acc : Type}
    (body : DecodeChannel Decoder -> Heap -> Acc
            -> (DecodeChannel Decoder * Heap) * result Acc) :
  (forall c h a c' h' r, body c h a = ((c', h'), r) -> h' = h) ->
  forall chans h a chans' h' r,
    forChannels body chans h a = ((chans', h'), r) -> h' = h.
Proof.
  intros Hbody. induction chans as [|c rest IH]; intros h a chans' h' r; cbn.
  - by intros [= <- <- <-].
  - destruct (body c h a) as [[c1 h1] [a1|e]] eqn:Hstep.
    + destruct (forChannels body rest h1 a1) as [[rest1 h2] r1] eqn:Hrest.
      intros [= <- <- <-]. rewrite (IH _ _ _ _ _ Hrest). eapply Hbody, Hstep.
    + intros [= <- <- <-]. eapply Hbody, Hstep.
Qed.

Lemma makeChannels_spec (cvi : CompressedVectorNodeImpl) :
  forall dbufs i s,
  exists r new,
    makeChannels cvi i dbufs s
    = Some (r, onThis (fun rd => setChannels (channels_ rd ++ new) rd) s)
    /\ Forall (created cvi) new
    /\ (r = Ok tt -> map dbuf new = dbufs).
Proof.
  induction dbufs as [|d rest IH]; intros i s; cbn [makeChannels].
  - exists (Ok tt), []. split; [|split; [constructor|reflexivity]].
    unfold ret, onThis. rewrite app_nil_r. by destruct s as [h im []].
  - unfold bind at 1. unfold makeChannel.
    unfold bind at 1 2 3, gets, lift. cbn [id].
    destruct (DecoderFactory i cvi d (heap s)) as [dec|e].
    2: { exists (Throw e), []. split; [|split; [constructor|discriminate]].
         unfold onThis. rewrite app_nil_r. by destruct s as [h im []]. }
    destruct (get (getPrototype cvi) (pathName (impl (heap s) d))) as [node|e].
    2: { exists (Throw e), []. split; [|split; [constructor|discriminate]].
         unfold onThis. rewrite app_nil_r. by destruct s as [h im []]. }
    destruct (findTerminalPosition (getPrototype cvi) node) as [n|].
    2: { exists (Throw E57_ERROR_INTERNAL), [].
         split; [|split; [constructor|discriminate]].
         unfold throw, onThis. rewrite app_nil_r. by destruct s as [h im []]. }
    unfold modify.
    match goal with
    | |- context [makeChannels cvi (S i) rest ?s1] =>
        destruct (IH (S i) s1) as (r & new & -> & Hnew & Hdbufs)
    end.
    eexists r, (_ :: new). split; [|split].
    + unfold onThis. cbn. by rewrite <- app_assoc.
    + constructor; [by split|exact Hnew].
    + intros Hr. cbn. by rewrite (Hdbufs Hr).
Qed.

Lemma seedChannel_seeds (dpkt : DataPacket) (off : Z) c h (a : unit) c' h' r :
  seedChannel dpkt off c h a = ((c', h'), r) ->
  h' = h
  /\ dbuf c' = dbuf c /\ maxRecordCount c' = maxRecordCount c
  /\ inputFinished c' = inputFinished c
  /\ currentPacketLogicalOffset c' = off
  /\ currentBytestreamBufferIndex c' = 0.
Proof.
  unfold seedChannel. destruct (getBytestreamBufferLength dpkt (bytestreamNumber c));
    intros [= <- <- <-]; by repeat split.
Qed.

Lemma construct_spec (cvi : CompressedVectorNodeImpl)
    (dbufs : list SourceDestBuffer) (s : State) :
  exists r s', construct cvi dbufs s = Some (r, s') /\ constructed cvi dbufs s r s'.
Proof.
  unfold construct, checkImageFileOpen.
  unfold bind at 1 2, modify, ret.
  destruct (bool_decide_reflect (dbufs = [])) as [->|Hne].
  { eexists _, _. split; [reflexivity|]. by repeat split. }
  unfold bind at 1. rewrite setBuffers_unfold. cbn [this heap initialReader dbufs_ cVector_].
  destruct (checkBuffers _ _ true) as [[]|e].
  2: { eexists _, _. split; [reflexivity|]. by repeat split. }
  cbn [bool_decide decide_rel negb]. rewrite bool_decide_eq_true_2 by reflexivity.
  cbn [negb]. unfold bind at 1, gets. cbn [onThis this setDbufs dbufs_].
  unfold bind at 1.
  match goal with
  | |- context [makeChannels cvi 0 dbufs ?s1] =>
      destruct (makeChannels_spec cvi dbufs 0%nat s1) as (r1 & new & -> & Hnew & Hdbufs)
  end.
  destruct r1 as [[]|e].
  2: { eexists _, _. split; [reflexivity|]. by repeat split. }
  specialize (Hdbufs eq_refl).
  unfold bind at 1 2, modify. cbn [onThis this heap imf].
  destruct (Z.eqb_spec (getBinarySectionLogicalStart cvi) 0) as [Hzero|Hstart].
  { eexists _, _. split; [reflexivity|]. by repeat split. }
  unfold bind at 1, lift.
  destruct (readSectionHeader (getBinarySectionLogicalStart cvi)) as [hdr|e] eqn:Hhdr.
  2: { eexists _, _. split; [reflexivity|]. by repeat split. }
  unfold bind at 1 2. cbn [onThis this heap imf].
  destruct (lock (physicalToLogical (dataPhysicalOffset hdr))) as [dpkt|e] eqn:Hlock.
  2: { eexists _, _. split; [reflexivity|]. by repeat split. }
  destruct (Z.eqb_spec (packetType (header dpkt)) DATA_PACKET) as [Hdata|Hother];
    cbn [negb].
  2: { eexists _, _. split; [reflexivity|]. by repeat split. }
  unfold bind at 1.
  match goal with
  | |- context [forEachChannel ?b tt ?s1] =>
      destruct (forEachChannel_inv b tt s1) as (chans' & h' & r2 & Hloop & ->)
  end.
  cbn [this heap imf channels_ setSectionEnd setCache setRecordCounts setChannels
       app] in Hloop.
  assert (Hheap : h' = heap s).
  { eapply (forChannels_heap _ _ _ _ _ _ _ _ Hloop). Unshelve.
    intros c h a c' h0 r Hstep. by destruct (seedChannel_seeds _ _ _ _ _ _ _ _ Hstep). }
  destruct r2 as [[]|e].
  2: { eexists _, _. split; [reflexivity|]. by repeat split. }
  unfold bind, modify.
  eexists _, _. split; [reflexivity|].
  split; [exact Hheap|]. split; [reflexivity|].
  split; [exact Hne|]. split; [exact Hstart|].
  exists hdr, dpkt. repeat split; try assumption.
  - cbn [this onThis setIsOpen setChannels channels_].
    rewrite <- Hdbufs. apply Forall2_same_image.
    eapply (forChannels_completed (fun c c' => dbuf c = dbuf c')); [|exact Hloop].
    intros c h a c' h0 a' Hstep.
    destruct (seedChannel_seeds _ _ _ _ _ _ _ _ Hstep) as (_ & -> & _). reflexivity.
  - cbn [this onThis setIsOpen setChannels channels_].
    assert (Hseeded :
      Forall2 (fun c c' => created cvi c ->
                           freshChannel cvi
                             (physicalToLogical (dataPhysicalOffset hdr)) c')
              new chans').
    { eapply forChannels_completed; [|exact Hloop].
      intros c h a c' h0 a' Hstep [Hmax Hfin].
      destruct (seedChannel_seeds _ _ _ _ _ _ _ _ Hstep)
        as (_ & _ & Hm & Hf & Ho & Hi).
      unfold freshChannel. rewrite Hm, Hf. auto. }
    clear -Hseeded Hnew. induction Hseeded as [|c c' l l' Hc _ IH]; [constructor|].
    apply Forall_cons in Hnew as [Hc0 Hl]. constructor; auto.
Qed.

End ConstructFacts.

(** X9.  The constructor always terminates.  When it returns, the reader
    is open, the reader count of the image file is one more than it was,
    the buffers are bound, there is one channel per buffer, in the order
    of the buffers, each at the start of the first data packet of the
    section (which is a data packet), and the end of the section is the
    start plus the length of the section header, as a [uint64_t].  When it
    throws, whatever the reason, the reader is not open and the image file
    (its reader count) is as it was.  The buffers are untouched in both
    cases. *)
Theorem construct_opens_or_changes_nothing `{Collaborators}
    (cvi : CompressedVectorNodeImpl) (dbufs : list SourceDestBuffer) (s : State) :
  exists r s',
    construct cvi dbufs s = Some (r, s')
    /\ constructed cvi dbufs s r s'
    /\ (forall e, r = Throw e ->
                  isOpen_ (this s') = false
                  /\ readerCount_ (imf s') = readerCount_ (imf s))
    /\ (r = Ok tt ->
        isOpen_ (this s') = true
        /\ readerCount_ (imf s') = readerCount_ (imf s) + 1
        /\ length (channels_ (this s')) = length dbufs
        /\ map dbuf (channels_ (this s')) = dbufs
        /\ Forall (fun c => currentBytestreamBufferIndex c = 0
                            /\ inputFinished c = false
                            /\ exists pkt,
                                lock (currentPacketLogicalOffset c) = Ok pkt
                                /\ packetType (header pkt) = DATA_PACKET)
                  (channels_ (this s'))).
Proof.
  destruct (construct_spec cvi dbufs s) as (r & s' & Hrun & Hdone).
  exists r, s'. split; [exact Hrun|]. split; [exact Hdone|].
  destruct Hdone as (_ & _ & Hcase). split.
  - intros e ->. destruct Hcase as [Hclosed ->]. by split.
  - intros ->.
    destruct Hcase as (_ & _ & hdr & dpkt & _ & Hlock & Hdata & Hopen & Himf & _
                       & _ & _ & _ & _ & Hdbufs & Hfresh).
    split; [exact Hopen|]. split; [by rewrite Himf|].
    split; [by rewrite <- Hdbufs, length_map|].
    split; [exact Hdbufs|].
    eapply Forall_impl; [exact Hfresh|].
    intros c (_ & Hoff & Hindex & Hfin). rewrite Hoff. eauto.
Qed.

Lemma construct_opens_or_changes_nothing_witness :
  @construct Fixture.collaborators Fixture.cvi [0%nat; 1%nat] (Fixture.fresh true)
  = Some (Ok tt, Fixture.opened true)
  /\ readerCount_ (imf (Fixture.opened true))
     = readerCount_ (imf (Fixture.fresh true)) + 1
  /\ map dbuf (channels_ (this (Fixture.opened true))) = [0%nat; 1%nat].
Proof.
  assert (Hrun : @construct Fixture.collaborators Fixture.cvi [0%nat; 1%nat]
                   (Fixture.fresh true) = Some (Ok tt, Fixture.opened true))
    by (vm_compute; reflexivity).
  split; [exact Hrun|].
  destruct (@construct_opens_or_changes_nothing Fixture.collaborators Fixture.cvi
              [0%nat; 1%nat] (Fixture.fresh true))
    as (r & s' & Hrun' & _ & _ & Hok).
  rewrite Hrun in Hrun'. injection Hrun' as <- <-.
  destruct (Hok eq_refl) as (_ & Hcount & _ & Hdbufs & _).
  split; [exact Hcount|exact Hdbufs].
Defined.

(** X10.  A reader that has been constructed and is then closed leaves the
    image file as it was before the construction (the reader count is
    back), with no channel left and the buffers untouched. *)
Theorem construct_then_close_restores_reader_count `{Collaborators}
    (cvi : CompressedVectorNodeImpl) (dbufs : list SourceDestBuffer)
    (s s1 : State) :
  construct cvi dbufs s = Some (Ok tt, s1) ->
  exists s2,
    close s1 = Some (Ok tt, s2)
    /\ imf s2 = imf s
    /\ isOpen_ (this s2) = false
    /\ channels_ (this s2) = []
    /\ cache_ (this s2) = false
    /\ heap s2 = heap s.
Proof.
  intros Hrun.
  destruct (construct_spec cvi dbufs s) as (r & s' & Hrun' & Hheap & _ & Hcase).
  rewrite Hrun in Hrun'. injection Hrun' as <- <-.
  destruct Hcase as (_ & _ & hdr & dpkt & _ & _ & _ & Hopen & Himf & _).
  exists (closed s1). split; [apply close_runs|].
  unfold closed. rewrite Hopen. cbn.
  split; [|by repeat split].
  rewrite Himf. unfold decrReaderCount, incrReaderCount. cbn.
  destruct (imf s) as [o n]. cbn. f_equal. lia.
Qed.

Lemma construct_then_close_restores_reader_count_witness :
  exists s2,
    @close Fixture.collaborators (Fixture.opened true) = Some (Ok tt, s2)
    /\ imf s2 = imf (Fixture.fresh true)
    /\ isOpen_ (this s2) = false.
Proof.
  destruct (@construct_then_close_restores_reader_count Fixture.collaborators
              Fixture.cvi [0%nat; 1%nat] (Fixture.fresh true) (Fixture.opened true))
    as (s2 & Hclose & Himf & Hopen & _).
  - vm_compute; reflexivity.
  - exists s2. auto.
Defined.

(** ** Reading at the end of the section *)

Section FinishedFacts.

Context `{Collaborators}.

Lemma earliest_none_needed (h : Heap) (chans : list (DecodeChannel Decoder)) :
  Forall (fun c => inputFinished c = true) chans ->
  earliestPacketNeededForInput chans h = E57_UINT64_MAX.
Proof.
  intros Hall.
  destruct (earliest_fold h chans E57_UINT64_MAX)
    as (_ & _ & [Heq|(chan & Hin & Hneed & _)]); [exact Heq|].
  rewrite Forall_forall in Hall.
  specialize (Hall chan (proj2 (list_elem_of_In _ _) Hin)).
  unfold needsInput in Hneed. rewrite Hall in Hneed.
  by rewrite andb_false_r in Hneed.
Qed.

Lemma forEachChannel_drain (s : State) r s' :
  forEachChannel drainChannel tt s = Some (r, s') ->
  Forall2 (fun c c' => packetPosition c' = packetPosition c)
          (channels_ (this s)) (channels_ (this s'))
  /\ isOpen_ (this s') = isOpen_ (this s).
Proof.
  intros Hrun.
  destruct (forEachChannel_inv drainChannel tt s) as (chans' & h' & r' & Hloop & Hrun').
  rewrite Hrun' in Hrun. injection Hrun as <- <-. split; [|reflexivity].
  cbn [this setChannels channels_].
  eapply forChannels_related; [reflexivity| |exact Hloop].
  intros c h a c' h0 r0 Hstep. by destruct (drainChannel_keeps _ _ _ _ _ _ Hstep).
Qed.

Lemma Forall_finished_kept (l l' : list (DecodeChannel Decoder)) :
  Forall2 (fun c c' => packetPosition c' = packetPosition c) l l' ->
  Forall (fun c => inputFinished c = true) l ->
  Forall (fun c => inputFinished c = true) l'.
Proof.
  induction 1 as [|c c' l l' Hc _ IH]; [constructor|].
  intros Hfin. apply Forall_cons in Hfin as [Hc0 Hl]. constructor; [|auto].
  by rewrite (packetPosition_finished _ _ Hc).
Qed.

(** The buffers rewound, as at the start of [read()]. *)
Lemma read_finished (fuel : nat) (s : State) :
  isOpen_ (this s) = true ->
  Forall (fun c => inputFinished c = true) (channels_ (this s)) ->
  read (S fuel) s =
  match forEachChannel drainChannel tt
          (onHeap (fun h => fold_left (fun h' d => rewind d h') (dbufs_ (this s)) h) s)
  with
  | None => None
  | Some (Throw e, s1) => Some (Throw e, s1)
  | Some (Ok _, s1) =>
      Some (verifyOutputCount (heap s1) 0 0 (channels_ (this s1)), s1)
  end.
Proof.
  intros Hopen Hfin. rewrite read_unfold.
  unfold readUntilDone, checkImageFileOpen, checkReaderOpen.
  unfold bind, ret, throw, gets, modify. rewrite Hopen. cbn [negb].
  destruct (forEachChannel drainChannel tt _) as [[[[]|e] s1]|] eqn:Hdrain;
    [|reflexivity..].
  destruct (forEachChannel_drain _ _ _ Hdrain) as [Hpos _].
  cbn [this onHeap] in Hpos.
  rewrite pullLoop_step, (earliest_none_needed _ _ (Forall_finished_kept _ _ Hpos Hfin)).
  reflexivity.
Qed.

End FinishedFacts.

(** X11.  On an open reader of which every channel is finished, [read()]
    terminates without feeding a packet (one unit of fuel is enough, and
    any larger amount gives the same): the packet, the slice length and
    the finished flag of every channel are as they were, and the channels
    are still all finished. *)
Theorem read_at_end_feeds_nothing `{Collaborators} (fuel : nat) (s : State) :
  isOpen_ (this s) = true ->
  Forall (fun c => inputFinished c = true) (channels_ (this s)) ->
  exists r s',
    read 1 s = Some (r, s')
    /\ read (S fuel) s = Some (r, s')
    /\ map packetPosition (channels_ (this s')) = map packetPosition (channels_ (this s))
    /\ Forall (fun c => inputFinished c = true) (channels_ (this s')).
Proof.
  intros Hopen Hfin. rewrite !(read_finished _ s Hopen Hfin).
  destruct (forEachChannel drainChannel tt _) as [[r1 s1]|] eqn:Hdrain.
  - destruct (forEachChannel_drain _ _ _ Hdrain) as [Hpos _].
    cbn [this onHeap] in Hpos.
    assert (Hkept : map packetPosition (channels_ (this s1))
                    = map packetPosition (channels_ (this s))
                    /\ Forall (fun c => inputFinished c = true) (channels_ (this s1))).
    { split; [|by eapply Forall_finished_kept].
      apply Forall2_same_image. eapply Forall2_impl; [exact Hpos|].
      intros c c' Hc. by symmetry. }
    destruct r1 as [[]|e]; eexists _, s1; (split; [reflexivity|]);
      (split; [reflexivity|exact Hkept]).
  - exfalso. unfold forEachChannel in Hdrain.
    destruct (forChannels _ _ _ _) as [[? ?] ?]. discriminate.
Qed.

Lemma read_at_end_feeds_nothing_witness :
  @read Fixture.collaborators 1 (Fixture.afterSecondRead true)
  = Some (Ok 0, Fixture.afterThirdRead true)
  /\ @read Fixture.collaborators 8 (Fixture.afterSecondRead true)
     = Some (Ok 0, Fixture.afterThirdRead true).
Proof.
  destruct (@read_at_end_feeds_nothing Fixture.collaborators 7
              (Fixture.afterSecondRead true))
    as (r & s' & Hone & Hany & _).
  - reflexivity.
  - repeat constructor.
  - assert (Hrun : @read Fixture.collaborators 1 (Fixture.afterSecondRead true)
                   = Some (Ok 0, Fixture.afterThirdRead true))
      by (vm_compute; reflexivity).
    rewrite Hrun in Hone. injection Hone as <- <-.
    split; [exact Hrun|exact Hany].
Defined.

(** * VectorNode: the invariant check *)

Section VectorNodeFacts.

Import VectorNode.

Context `{NodeOps}.

Lemma checkChild_passes (this : Node) (doRecurse : bool) (i : Z) :
  checkChild this doRecurse i = Ok tt <-> childConsistent this doRecurse i.
Proof.
  unfold checkChild, childConsistent, andThen. split.
  - destruct (get this i) as [child|e] eqn:Hget; [|discriminate].
    assert (Hrec : (if doRecurse then Node_checkInvariant child doRecurse true
                    else Ok tt) = Ok tt
                   \/ exists e, (if doRecurse then Node_checkInvariant child doRecurse true
                                 else Ok tt) = Throw e).
    { destruct (if doRecurse then _ else _) as [[]|e]; eauto. }
    destruct Hrec as [Hrec|[e Hrec]]; rewrite Hrec; [|discriminate].
    destruct (parent child) as [p|e] eqn:Hparent; [|discriminate].
    destruct (bool_decide_reflect (this = p)) as [Hp|]; cbn [negb]; [|discriminate].
    destruct (elementName child) as [name|e] eqn:Hname; [|discriminate].
    destruct (isDefined this name) as [[|]|e] eqn:Hdef; cbn [negb]; [|discriminate..].
    destruct (getByName this name) as [n|e] eqn:Hfound; [|discriminate].
    destruct (bool_decide_reflect (n = child)) as [Hn|]; cbn [negb]; [|discriminate].
    intros _. exists child, name. subst p n.
    split; [reflexivity|]. split; [by intros ->|]. by repeat split.
  - intros (child & name & -> & Hrec & -> & -> & -> & ->).
    destruct doRecurse; [rewrite (Hrec eq_refl)|];
      rewrite !bool_decide_eq_true_2 by reflexivity; reflexivity.
Qed.

Lemma checkChildren_passes (this : Node) (doRecurse : bool) (left : nat) :
  forall i,
    checkChildren this doRecurse left i = Ok tt
    <-> forall j, i <= j < i + Z.of_nat left -> childConsistent this doRecurse j.
Proof.
  induction left as [|left IH]; intros i; cbn [checkChildren].
  - split; [intros _ j Hj; lia|reflexivity].
  - unfold andThen. split.
    + destruct (checkChild this doRecurse i) as [[]|e] eqn:Hchild; [|discriminate].
      intros Hrest j Hj. destruct (Z.eq_dec j i) as [->|Hne].
      * by apply checkChild_passes.
      * apply (proj1 (IH (i + 1)) Hrest). lia.
    + intros Hall.
      rewrite (proj2 (checkChild_passes this doRecurse i) (Hall i ltac:(lia))).
      apply IH. intros j Hj. apply Hall. lia.
Qed.

End VectorNodeFacts.

(** X12.  [VectorNode::checkInvariant] returns without a check when the
    image file of the node is not open.  When the file is open, it returns
    exactly when the check of the node as a generic [Node] passes (if
    [doUpcast] asks for it) and every child, at each index below
    [childCount()], can be fetched, passes its own check (if [doRecurse]
    asks for it), names this node as its parent, has an element name that
    is defined in this node, and is the node found under this name. *)
Theorem VectorNode_checkInvariant_passes_iff `{VectorNode.NodeOps}
    (this : VectorNode.Node) (doRecurse doUpcast : bool) :
  (VectorNode.destImageFileIsOpen this = false ->
   VectorNode.checkInvariant this doRecurse doUpcast = Ok tt)
  /\ (VectorNode.destImageFileIsOpen this = true ->
      (VectorNode.checkInvariant this doRecurse doUpcast = Ok tt
       <-> (doUpcast = true -> VectorNode.Node_checkInvariant this false false = Ok tt)
           /\ exists count,
               VectorNode.childCount this = Ok count
               /\ forall i, 0 <= i < count ->
                            VectorNode.childConsistent this doRecurse i)).
Proof.
  unfold VectorNode.checkInvariant. split; [by intros ->|]. intros ->. cbn [negb].
  unfold VectorNode.andThen. split.
  - assert (Hup : (if doUpcast then VectorNode.Node_checkInvariant this false false
                   else Ok tt) = Ok tt
                  \/ exists e, (if doUpcast
                                then VectorNode.Node_checkInvariant this false false
                                else Ok tt) = Throw e).
    { destruct (if doUpcast then _ else _) as [[]|e]; eauto. }
    destruct Hup as [Hup|[e Hup]]; rewrite Hup; [|discriminate].
    destruct (VectorNode.childCount this) as [count|e]; [|discriminate].
    intros Hloop. split; [by intros ->|].
    exists count. split; [reflexivity|]. intros i Hi.
    apply (proj1 (checkChildren_passes this doRecurse (Z.to_nat count) 0) Hloop). lia.
  - intros (Hup & count & -> & Hall).
    destruct doUpcast; [rewrite (Hup eq_refl)|];
      apply checkChildren_passes; intros j Hj; apply Hall; lia.
Qed.

Lemma VectorNode_checkInvariant_passes_iff_witness :
  @VectorNode.checkInvariant (VectorNode.exampleOps true) 0%nat true true = Ok tt
  /\ (forall i, 0 <= i < 2 ->
                @VectorNode.childConsistent (VectorNode.exampleOps true) 0%nat true i)
  /\ @VectorNode.checkInvariant (VectorNode.exampleOps false) 0%nat true true = Ok tt
  /\ @VectorNode.checkInvariant VectorNode.brokenOps 0%nat false false
     = Throw ErrorInvarianceViolation.
Proof.
  assert (Hcheck : @VectorNode.checkInvariant (VectorNode.exampleOps true)
                     0%nat true true = Ok tt) by (vm_compute; reflexivity).
  split; [exact Hcheck|]. split; [|split; [|vm_compute; reflexivity]].
  - destruct (proj1 (proj2 (@VectorNode_checkInvariant_passes_iff
                              (VectorNode.exampleOps true) 0%nat true true) eq_refl)
                Hcheck) as (_ & count & Hcount & Hall).
    injection Hcount as <-. exact Hall.
  - apply (proj1 (@VectorNode_checkInvariant_passes_iff (VectorNode.exampleOps false)
                    0%nat true true)). reflexivity.
Defined.

(** * The scan, whatever the cache holds *)

(** X13.  Without any assumption on the packets, [findNextDataPacket]
    leaves the state alone and never returns an offset at which there is
    no data packet: a result other than the sentinel [E57_UINT64_MAX] is
    an offset before the end of the section at which the cache returns a
    data packet; and an error it throws is an error of the cache. *)
Theorem findNextDataPacket_returns_data_packet_or_sentinel `{Collaborators}
    (fuel : nat) (start : Z) (s : State) r (s' : State) :
  findNextDataPacket fuel start s = Some (r, s') ->
  s' = s
  /\ match r with
     | Ok off =>
         off = E57_UINT64_MAX
         \/ (off < sectionEndLogicalOffset_ (this s)
             /\ exists pkt, lock off = Ok pkt
                            /\ packetType (header pkt) = DATA_PACKET)
     | Throw e => exists off, lock off = Throw e
     end.
Proof.
  unfold findNextDataPacket.
  destruct (findNextDataPacketFrom fuel (sectionEndLogicalOffset_ (this s)) start)
    as [r0|] eqn:Hscan; [|discriminate].
  intros [= <- <-]. split; [reflexivity|].
  destruct r0 as [off|e]; [by eapply findNextDataPacketFrom_data|].
  revert start Hscan. induction fuel as [|fuel IH]; intros start; cbn; [discriminate|].
  destruct (start <? sectionEndLogicalOffset_ (this s)); [|discriminate].
  destruct (lock start) as [pkt|e0] eqn:Hlock; [|intros [= <-]; eauto].
  destruct (packetType (header pkt) =? DATA_PACKET); [discriminate|apply IH].
Qed.

Lemma findNextDataPacket_returns_data_packet_or_sentinel_witness :
  @findNextDataPacket Fixture.collaborators 8 101 (Fixture.opened true)
  = Some (Throw E57_ERROR_BAD_CV_PACKET, Fixture.opened true)
  /\ exists off, @lock Fixture.collaborators off = Throw E57_ERROR_BAD_CV_PACKET.
Proof.
  assert (Hrun : @findNextDataPacket Fixture.collaborators 8 101 (Fixture.opened true)
                 = Some (Throw E57_ERROR_BAD_CV_PACKET, Fixture.opened true))
    by (vm_compute; reflexivity).
  split; [exact Hrun|].
  exact (proj2 (@findNextDataPacket_returns_data_packet_or_sentinel
                  Fixture.collaborators 8 101 _ _ _ Hrun)).
Defined.
